(** * model_converter.py: batch conversion of .safetensors files to .ckpt

    A shallow embedding of [main] of
    [personal server start scripts/model_converter.py] together with the
    part of its environment that the script drives: Python string
    operations, POSIX path resolution over a file tree without links, the
    directory listing behind [glob], and the two serialization libraries
    ([safetensors.torch.load_file] and [torch.save]), whose byte layouts are
    left abstract.

    The main development runs the script on a tree without links and on
    a standard output that takes every line. [Hosted] is the same script
    over any environment, with a [print] that raises when the standard
    output cannot encode a line; [Linked] is a file tree with symbolic
    and hard links; [Wildcards] is [glob]'s expansion of wildcard
    characters in the directory part. *)

From Stdlib Require Import String Ascii List Arith Lia Bool.
From stdpp Require Import base option list strings gmap pretty.

Open Scope string_scope.

(** ** Python strings *)

Module PyStr.

(** [s[n:]] *)
Fixpoint drop (n : nat) (s : string) : string :=
  match n, s with
  | 0, _ => s
  | S _, EmptyString => EmptyString
  | S n', String _ s' => drop n' s'
  end.

(** [s.startswith(p)] *)
Definition startswith (p s : string) : bool := String.prefix p s.

(** [s.endswith(p)] *)
Definition endswith (p s : string) : bool :=
  Nat.leb (String.length p) (String.length s)
  && String.eqb (drop (String.length s - String.length p) s) p.

(** One pass of [str.replace]: [skip] counts the characters of a match
    that has just been replaced and that are still to be passed over. *)
Fixpoint replace_aux (old new : string) (skip : nat) (s : string) : string :=
  match s with
  | EmptyString => EmptyString
  | String c s' =>
      match skip with
      | S k => replace_aux old new k s'
      | 0 =>
          if startswith old s
          then new ++ replace_aux old new (String.length old - 1) s'
          else String c (replace_aux old new 0 s')
      end
  end.

(** With an empty [old], Python puts [new] before every character and at
    the end. *)
Fixpoint intersperse (new s : string) : string :=
  match s with
  | EmptyString => new
  | String c s' => new ++ String c (intersperse new s')
  end.

(** [s.replace(old, new)]: every non-overlapping occurrence of [old],
    scanning from the left, becomes [new]. *)
Definition replace (old new s : string) : string :=
  match old with
  | EmptyString => intersperse new s
  | _ => replace_aux old new 0 s
  end.

(** [c in s] for a character *)
Fixpoint contains (c : ascii) (s : string) : bool :=
  match s with
  | EmptyString => false
  | String d s' => Ascii.eqb c d || contains c s'
  end.

(** [s.split(sep)] for a one-character separator *)
Fixpoint split (sep : ascii) (s : string) : list string :=
  match s with
  | EmptyString => [EmptyString]
  | String c s' =>
      if Ascii.eqb c sep then EmptyString :: split sep s'
      else match split sep s' with
           | [] => [String c EmptyString]
           | w :: ws => String c w :: ws
           end
  end.

(** [s.rstrip(c)] for a single character *)
Fixpoint rstrip (c : ascii) (s : string) : string :=
  match s with
  | EmptyString => EmptyString
  | String d s' =>
      match rstrip c s' with
      | EmptyString => if Ascii.eqb d c then EmptyString else String d EmptyString
      | r => String d r
      end
  end.

(** [s[:n]] *)
Fixpoint take (n : nat) (s : string) : string :=
  match n, s with
  | 0, _ => EmptyString
  | S _, EmptyString => EmptyString
  | S n', String c s' => String c (take n' s')
  end.

End PyStr.

(** ** POSIX paths ([posixpath]) *)

Module PosixPath.

(** [os.path.basename(p)]: what follows the last slash. *)
Definition basename (p : string) : string :=
  List.last (PyStr.split "/" p) EmptyString.

(** [os.path.split(p)]: the head is what precedes the base name, without
    its trailing slashes unless it consists of slashes only. *)
Definition split (p : string) : string * string :=
  let tail := basename p in
  let head := PyStr.take (String.length p - String.length tail) p in
  match PyStr.rstrip "/" head with
  | EmptyString => (head, tail)
  | stripped => (stripped, tail)
  end.

(** [os.path.join(a, b)] *)
Definition join (a b : string) : string :=
  if PyStr.startswith "/" b then b
  else if String.eqb a "" || PyStr.endswith "/" a then a ++ b
  else a ++ "/" ++ b.

End PosixPath.

(** ** Tensors and exceptions *)

(** The element types of the tensors that [load_file] returns. *)
Inductive dtype :=
| BOOL | U8 | I8 | F8_E5M2 | F8_E4M3 | I16 | U16 | F16 | BF16
| I32 | U32 | F32 | C64 | F64 | I64 | U64.

Record tensor := Tensor {
  tensor_dtype : dtype;
  tensor_shape : list nat;
  tensor_data : list Byte.byte
}.

(** The dictionary returned by [load_file]: tensor names to tensors. *)
Abbreviation tensors := (gmap string tensor).

(** An instance of Python's [Exception]; [str e] is its message. *)
Inductive exn := Exception (msg : string).

Definition str (e : exn) : string := let 'Exception msg := e in msg.

(** The exception a failed file operation raises; the text stands for
    the one the library gives. *)
Definition OSError (strerror filename : string) : exn :=
  Exception (strerror ++ ": '" ++ filename ++ "'").

(** ** The file tree

    Files and directories are kept in an association list from absolute
    paths (lists of names, the root being the empty list) to nodes; the
    order of the list is the order in which a directory is enumerated.
    There are no symbolic or hard links; [Linked] has them. *)

Inductive node (bytes : Type) := File (content : bytes) | Dir.
Arguments File {bytes} content.
Arguments Dir {bytes}.

Abbreviation key := (list string).

Record fsys (bytes : Type) := Fsys {
  cwd : key;
  entries : list (key * node bytes)
}.
Arguments Fsys {bytes} cwd entries.
Arguments cwd {bytes} f.
Arguments entries {bytes} f.

Section FileTree.
Context {bytes : Type}.

Fixpoint assoc (k : key) (l : list (key * node bytes)) : option (node bytes) :=
  match l with
  | [] => None
  | (k', n) :: l' => if decide (k = k') then Some n else assoc k l'
  end.

(** Replaces the node at [k], or appends a new entry. *)
Fixpoint store (k : key) (n : node bytes) (l : list (key * node bytes))
  : list (key * node bytes) :=
  match l with
  | [] => [(k, n)]
  | (k', n') :: l' =>
      if decide (k = k') then (k, n) :: l' else (k', n') :: store k n l'
  end.

Definition lookup_key (f : fsys bytes) (k : key) : option (node bytes) :=
  match k with
  | [] => Some Dir
  | _ => assoc k (entries f)
  end.

Definition is_dir (f : fsys bytes) (k : key) : bool :=
  match lookup_key f k with
  | Some Dir => true
  | _ => false
  end.

Definition is_present (f : fsys bytes) (k : key) : bool :=
  match lookup_key f k with
  | Some _ => true
  | None => false
  end.

(** Path resolution, one component at a time: every component is looked
    up in a directory; empty components and [.] stay, [..] goes up. *)
Fixpoint walk (f : fsys bytes) (cur : key) (cs : list string) : option key :=
  match cs with
  | [] => Some cur
  | c :: cs' =>
      if is_dir f cur then
        if String.eqb c "" || String.eqb c "." then walk f cur cs'
        else if String.eqb c ".." then
          if is_dir f (removelast cur) then walk f (removelast cur) cs'
          else None
        else walk f (cur ++ [c]) cs'
      else None
  end.

Definition resolve (f : fsys bytes) (p : string) : option key :=
  match p with
  | EmptyString => None
  | String c _ =>
      walk f (if Ascii.eqb c "/" then [] else cwd f) (PyStr.split "/" p)
  end.

(** [os.path.exists(p)] *)
Definition path_exists (f : fsys bytes) (p : string) : bool :=
  match resolve f p with
  | Some k => is_present f k
  | None => false
  end.

(** The name of [k] inside directory [d], when [k] is a child of [d]. *)
Fixpoint child_name (d k : key) : option string :=
  match d, k with
  | [], [n] => Some n
  | x :: d', y :: k' => if String.eqb x y then child_name d' k' else None
  | _, _ => None
  end.

(** Names that a directory entry can have. *)
Definition valid_name (n : string) : bool :=
  negb (String.eqb n "" || String.eqb n "." || String.eqb n ".."
        || PyStr.contains "/" n).

(** The names [os.scandir(p)] yields; no names when it raises [OSError]
    (missing path, not a directory). *)
Definition listdir (f : fsys bytes) (p : string) : list string :=
  match resolve f p with
  | Some d =>
      if is_dir f d
      then filter (fun n => Is_true (valid_name n))
             (omap (fun e => child_name d e.1) (entries f))
      else []
  | None => []
  end.

(** Opening [p] for reading. *)
Definition read_file (f : fsys bytes) (p : string) : exn + bytes :=
  match resolve f p with
  | None => inl (OSError "No such file or directory" p)
  | Some k =>
      match lookup_key f k with
      | Some (File b) => inr b
      | Some Dir => inl (OSError "Is a directory" p)
      | None => inl (OSError "No such file or directory" p)
      end
  end.

(** Opening [p] for writing creates or truncates the file; it fails when
    the path does not resolve or names a directory. *)
Definition open_for_writing (f : fsys bytes) (p : string) : exn + key :=
  match resolve f p with
  | None => inl (OSError "No such file or directory" p)
  | Some k =>
      if is_dir f k then inl (OSError "Is a directory" p) else inr k
  end.

Definition put (f : fsys bytes) (k : key) (b : bytes) : fsys bytes :=
  Fsys (cwd f) (store k (File b) (entries f)).

End FileTree.

(** A file whose name carries the source extension. *)
Definition source_key (k : key) : bool :=
  PyStr.endswith ".safetensors" (List.last k EmptyString).

(** ** The external libraries

    The byte layouts of both container formats belong to the libraries, so
    file contents are an abstract type and the codecs are operations on it. *)

(** What [torch.save] leaves in the opened file: the whole archive, or an
    exception after part of it. *)
Inductive saved (bytes : Type) :=
| Written (content : bytes)
| Aborted (e : exn) (partial : bytes).
Arguments Written {bytes} content.
Arguments Aborted {bytes} e partial.

Class Libraries := {
  bytes : Type;
  (** [safetensors.torch.load_file] on the contents of a file *)
  safetensors_deserialize : bytes -> exn + tensors;
  (** the archive [torch.save] writes for a dictionary *)
  torch_serialize : tensors -> saved bytes;
  (** [torch.load] on the contents of a file *)
  torch_deserialize : bytes -> option tensors;
  (** [glob]'s expansion of a directory part that contains wildcard
      characters *)
  glob_magic_dirs : fsys bytes -> string -> list string
}.

(** ** Program state and effects *)

(** Calls into the operating system and the libraries, in order. *)
Inductive call :=
| CallExists (path : string)
| CallGlob (pattern : string)
| CallLoadFile (path : string)
| CallTorchSave (path : string)
| CallGcCollect.

Inductive result (A : Type) := Returned (a : A) | Raised (e : exn).
Arguments Returned {A} a.
Arguments Raised {A} e.

Section Converter.
Context {L : Libraries}.

Record state := State {
  fs : fsys bytes;
  stdout : list string;
  (** the local variable [ckpt]; [None] while it is unbound *)
  ckpt : option tensors;
  calls : list call
}.

(** Computations that read and write the state and may raise. The state
    changes made before an exception is raised are kept. *)
Definition M (A : Type) : Type := state -> result A * state.

#[export] Instance M_ret : MRet M := fun A a s => (Returned a, s).

#[export] Instance M_bind : MBind M := fun A B k m s =>
  match m s with
  | (Returned a, s') => k a s'
  | (Raised e, s') => (Raised e, s')
  end.

(** [try: body except Exception as e: handler e] *)
Definition try_except {A} (body : M A) (handler : exn -> M A) : M A :=
  fun s =>
    match body s with
    | (Returned a, s') => (Returned a, s')
    | (Raised e, s') => handler e s'
    end.

(** [for x in l: body x] *)
Fixpoint for_each {A} (l : list A) (body : A -> M unit) : M unit :=
  match l with
  | [] => mret tt
  | x :: l' => body x;; for_each l' body
  end.

Definition log_call (c : call) (s : state) : state :=
  State (fs s) (stdout s) (ckpt s) (calls s ++ [c]).

(** [print(line)] on a standard output that takes every line; see
    [Hosted.print] for one that does not. *)
Definition print (line : string) : M unit := fun s =>
  (Returned tt, State (fs s) (stdout s ++ [line]) (ckpt s) (calls s)).

Definition os_path_exists (path : string) : M bool := fun s =>
  (Returned (path_exists (fs s) path), log_call (CallExists path) s).

(** [glob]'s test for wildcard characters *)
Definition has_magic (s : string) : bool :=
  PyStr.contains "*" s || PyStr.contains "?" s || PyStr.contains "[" s.

(** The names in directory [dirname] that match [*.safetensors]; names
    that start with a dot are never matched by a leading [*]. *)
Definition glob1 (f : fsys bytes) (dirname : string) : list string :=
  filter (fun n => Is_true (negb (PyStr.startswith "." n)
                            && PyStr.endswith ".safetensors" n))
    (listdir f dirname).

(** [glob(pathname)] for a [pathname] whose last component is
    [*.safetensors], as [main] builds it: the directory part is taken
    literally unless it holds wildcard characters. *)
Definition glob_files (f : fsys bytes) (pathname : string) : list string :=
  let dirname := (PosixPath.split pathname).1 in
  let dirs := if has_magic dirname then glob_magic_dirs f dirname
              else [dirname] in
  flat_map (fun d => map (PosixPath.join d) (glob1 f d)) dirs.

Definition glob (pathname : string) : M (list string) := fun s =>
  (Returned (glob_files (fs s) pathname), log_call (CallGlob pathname) s).

(** What [load_file(path)] returns or raises on file tree [f]. *)
Definition load_result (f : fsys bytes) (path : string) : exn + tensors :=
  match read_file f path with
  | inl e => inl e
  | inr b => safetensors_deserialize b
  end.

(** [load_file(path)] *)
Definition load_file (path : string) : M tensors := fun s =>
  let s' := log_call (CallLoadFile path) s in
  match load_result (fs s) path with
  | inl e => (Raised e, s')
  | inr t => (Returned t, s')
  end.

(** What [torch.save(obj, path)] raises, if anything, and the file tree it
    leaves: the file is opened first, then written. *)
Definition save_result (f : fsys bytes) (obj : tensors) (path : string)
  : option exn * fsys bytes :=
  match open_for_writing f path with
  | inl e => (Some e, f)
  | inr k =>
      match torch_serialize obj with
      | Written b => (None, put f k b)
      | Aborted e b => (Some e, put f k b)
      end
  end.

(** [torch.save(obj, path)] *)
Definition torch_save (obj : tensors) (path : string) : M unit := fun s =>
  let s' := log_call (CallTorchSave path) s in
  match save_result (fs s) obj path with
  | (None, f') => (Returned tt, State f' (stdout s') (ckpt s') (calls s'))
  | (Some e, f') => (Raised e, State f' (stdout s') (ckpt s') (calls s'))
  end.

(** [ckpt = v] *)
Definition assign_ckpt (v : tensors) : M unit := fun s =>
  (Returned tt, State (fs s) (stdout s) (Some v) (calls s)).

(** [del ckpt] *)
Definition del_ckpt : M unit := fun s =>
  (Returned tt, State (fs s) (stdout s) None (calls s)).

(** [gc.collect()] *)
Definition gc_collect : M unit := fun s =>
  (Returned tt, log_call CallGcCollect s).

(** The two marks of the result lines, as UTF-8. *)
Definition check_mark : string :=
  String (ascii_of_nat 226) (String (ascii_of_nat 156)
    (String (ascii_of_nat 147) EmptyString)).
Definition cross_mark : string :=
  String (ascii_of_nat 226) (String (ascii_of_nat 156)
    (String (ascii_of_nat 151) EmptyString)).

(** [filename.replace(".safetensors", ".ckpt")] *)
Definition output_filename (filename : string) : string :=
  PyStr.replace ".safetensors" ".ckpt" filename.

Definition skip_line (filename : string) : string :=
  "Skipping " ++ PosixPath.basename filename ++ " - .ckpt already exists".
Definition loading_line (filename : string) : string :=
  "Loading " ++ PosixPath.basename filename ++ "...".
Definition saving_line (filename : string) : string :=
  "Saving as " ++ PosixPath.basename (output_filename filename) ++ "...".
Definition success_line (filename : string) : string :=
  check_mark ++ " Successfully converted " ++ PosixPath.basename filename.
Definition error_line (filename : string) (e : exn) : string :=
  cross_mark ++ " Error converting " ++ PosixPath.basename filename
  ++ ": " ++ str e.

(** The body of the [for] loop of [main]. *)
Definition convert (skip_existing : bool) (filename : string) : M unit :=
  skip ← (if skip_existing then os_path_exists (output_filename filename)
          else mret false);
  if skip : bool then print (skip_line filename)
  else
    try_except
      (print (loading_line filename);;
       v ← load_file filename;
       assign_ckpt v;;
       print (saving_line filename);;
       torch_save v (output_filename filename);;
       del_ckpt;;
       gc_collect;;
       print (success_line filename))
      (fun e => print (error_line filename e)).

(** The state in which the loop body leaves [s], in closed form. *)
Definition convert_state (skip_existing : bool) (filename : string)
  (s : state) : state :=
  let target := output_filename filename in
  let pre := if skip_existing then [CallExists target] else [] in
  if skip_existing && path_exists (fs s) target
  then State (fs s) (stdout s ++ [skip_line filename]) (ckpt s)
         (calls s ++ pre)
  else
    match load_result (fs s) filename with
    | inl e =>
        State (fs s)
          (stdout s ++ [loading_line filename; error_line filename e])
          (ckpt s) (calls s ++ pre ++ [CallLoadFile filename])
    | inr v =>
        match save_result (fs s) v target with
        | (Some e, f') =>
            State f'
              (stdout s ++ [loading_line filename; saving_line filename;
                            error_line filename e])
              (Some v)
              (calls s ++ pre ++ [CallLoadFile filename; CallTorchSave target])
        | (None, f') =>
            State f'
              (stdout s ++ [loading_line filename; saving_line filename;
                            success_line filename])
              None
              (calls s ++ pre ++ [CallLoadFile filename; CallTorchSave target;
                                  CallGcCollect])
        end
    end.

Definition missing_line (base_path : string) : string :=
  "Error: Path '" ++ base_path ++ "' does not exist.".
Definition none_found_line (base_path : string) : string :=
  "No .safetensors files found in '" ++ base_path ++ "'".
Definition found_line (n : nat) : string :=
  "Found " ++ pretty n ++ " .safetensors files to convert".
Definition complete_line : string := "Conversion complete!".

Definition main (base_path : string) (skip_existing : bool) : M unit :=
  found ← os_path_exists base_path;
  if negb found then print (missing_line base_path)
  else
    safetensor_files ← glob (base_path ++ "/*.safetensors");
    match safetensor_files with
    | [] => print (none_found_line base_path)
    | _ =>
        print (found_line (length safetensor_files));;
        for_each safetensor_files (convert skip_existing);;
        print complete_line
    end.

(** The state a computation leaves, and how it ends. *)
Definition exec {A} (m : M A) (s : state) : state := (m s).2.
Definition outcome {A} (m : M A) (s : state) : result A := (m s).1.

(** What a run has printed, and the calls it has made, since state [s]. *)
Definition printed_since (s s' : state) : list string :=
  drop (length (stdout s)) (stdout s').
Definition called_since (s s' : state) : list call :=
  drop (length (calls s)) (calls s').

(** The changes a run can make to the file tree: the working directory
    and the directories stay, nothing disappears, files that carry the
    source extension keep their contents, and no directory gains a name
    that matches [*.safetensors]. *)
Definition evolves (f f' : fsys bytes) : Prop :=
  cwd f' = cwd f
  /\ (forall k, is_dir f' k = is_dir f k)
  /\ (forall k, is_present f k = true -> is_present f' k = true)
  /\ (forall k, source_key k = true -> lookup_key f' k = lookup_key f k)
  /\ (forall d, glob1 f' d = glob1 f d).




(** [torch.load(path)], used to read a converted file back. *)
Definition torch_load (f : fsys bytes) (path : string) : option tensors :=
  match read_file f path with
  | inr b => torch_deserialize b
  | inl _ => None
  end.

End Converter.

(** ** Vocabulary of the properties *)

(** Two dictionaries with the same names and, under each name, tensors of
    the same shape, dtype and values. *)
Definition same_tensors (a b : tensors) : Prop :=
  dom a = dom b
  /\ forall name ta tb, a !! name = Some ta -> b !! name = Some tb ->
       tensor_shape ta = tensor_shape tb
       /\ tensor_dtype ta = tensor_dtype tb
       /\ tensor_data ta = tensor_data tb.

(** [p in s] *)
Fixpoint occurs (p s : string) : bool :=
  PyStr.startswith p s
  || match s with
     | EmptyString => false
     | String _ s' => occurs p s'
     end.




(** ** A reference instance of the libraries, for concrete runs *)

Module Reference.

Inductive blob :=
| SafetensorsBlob (t : tensors)
| CkptBlob (t : tensors)
| TruncatedBlob
| CorruptBlob.

Definition header_error : exn :=
  Exception "Error while deserializing header: HeaderTooLarge".
Definition disk_full : exn :=
  Exception "[Errno 28] No space left on device".

Definition parse_safetensors (b : blob) : exn + tensors :=
  match b with
  | SafetensorsBlob t => inr t
  | _ => inl header_error
  end.

Definition parse_ckpt (b : blob) : option tensors :=
  match b with
  | CkptBlob t => Some t
  | _ => None
  end.

(** Libraries on a disk with room for every archive. *)
Definition libraries : Libraries := {|
  bytes := blob;
  safetensors_deserialize := parse_safetensors;
  torch_serialize t := Written (CkptBlob t);
  torch_deserialize := parse_ckpt;
  glob_magic_dirs _ _ := []
|}.

(** The same libraries on a full disk: every save stops part-way. *)
Definition libraries_full_disk : Libraries := {|
  bytes := blob;
  safetensors_deserialize := parse_safetensors;
  torch_serialize t := Aborted disk_full TruncatedBlob;
  torch_deserialize := parse_ckpt;
  glob_magic_dirs _ _ := []
|}.

Definition weight : tensor := Tensor F32 [2] [Byte.x00; Byte.x01].
Definition model : tensors := {[ "weight" := weight ]}.

(** [/m] holds a good file [a], a corrupt file [b] and a file [c] whose
    target was left truncated by an earlier run. *)
Definition models : fsys blob := Fsys [] [
  (["m"], Dir);
  (["m"; "a.safetensors"], File (SafetensorsBlob model));
  (["m"; "b.safetensors"], File CorruptBlob);
  (["m"; "c.safetensors"], File (SafetensorsBlob model));
  (["m"; "c.ckpt"], File TruncatedBlob);
  (["notes.txt"], File CorruptBlob)
].



(** A directory whose own name carries the source extension. *)
Definition nested_models : fsys blob := Fsys [] [
  (["models.safetensors"], Dir);
  (["models.safetensors"; "a.safetensors"], File (SafetensorsBlob model))
].

Definition start (L : Libraries) (f : fsys (@bytes L)) : @state L :=
  State f [] None [].

End Reference.



(** ** The command line

    The script's entry point, after [argparse] has turned the command line
    into a namespace: [--base_path] is required, [--force] is a flag that
    is false when absent. *)

Module Cli.

Record Namespace := {
  base_path : string;
  force : bool
}.

(** [main(args.base_path, skip_existing=not args.force)] *)
Definition script {L : Libraries} (args : Namespace) : M unit :=
  main (base_path args) (negb (force args)).

End Cli.



(** The trees a run can reach from [f]: regular files whose names do not
    carry the source extension are created or rewritten, one at a time,
    and nothing else changes. *)
Inductive written {L : Libraries} (f : fsys bytes) : fsys bytes -> Prop :=
| written_refl : written f f
| written_put f' k b :
    written f f' -> is_dir f' k = false -> source_key k = false ->
    written f (put f' k b).

(** ** Wildcards in the directory part

    [glob]'s expansion of a directory part that holds wildcard characters,
    for patterns made of literal characters, [*] and [?]. *)

Module Wildcards.

(** [fnmatch.fnmatchcase(name, pat)] *)
Fixpoint fnmatch (pat : string) : string -> bool :=
  match pat with
  | EmptyString => fun name => String.eqb name ""
  | String c pat' =>
      if Ascii.eqb c "*" then
        fix star (name : string) : bool :=
          fnmatch pat' name
          || match name with
             | EmptyString => false
             | String _ name' => star name'
             end
      else
        fun name =>
          match name with
          | EmptyString => false
          | String d name' =>
              (Ascii.eqb c "?" || Ascii.eqb c d) && fnmatch pat' name'
          end
  end.

Section Expansion.
Context {bytes : Type}.

(** [_glob1(dirname, pattern, dironly=True)]: the visible names of
    directories in [dirname] that match [pattern]. *)
Definition glob1_dirs (f : fsys bytes) (dirname pattern : string)
  : list string :=
  let place := if String.eqb dirname "" then "." else dirname in
  List.filter
    (fun n =>
       (PyStr.startswith "." pattern || negb (PyStr.startswith "." n))
       && fnmatch pattern n
       && match resolve f (PosixPath.join place n) with
          | Some k => is_dir f k
          | None => false
          end)
    (listdir f place).

(** [_glob0(dirname, basename, dironly=True)] *)
Definition glob0 (f : fsys bytes) (dirname basename : string) : list string :=
  if String.eqb basename ""
  then match resolve f dirname with
       | Some k => if is_dir f k then [basename] else []
       | None => []
       end
  else if path_exists f (PosixPath.join dirname basename) then [basename]
       else [].

(** [_iglob(pathname, dironly=True)] for a [pathname] with wildcard
    characters; the fuel bounds the number of path components. *)
Fixpoint iglob (fuel : nat) (f : fsys bytes) (pathname : string)
  : list string :=
  match fuel with
  | 0 => []
  | S fuel' =>
      let (dirname, basename) := PosixPath.split pathname in
      let in_dir d :=
        if PyStr.contains "*" basename || PyStr.contains "?" basename
        then glob1_dirs f d basename
        else glob0 f d basename in
      if String.eqb dirname "" then in_dir dirname
      else
        let dirs :=
          if negb (String.eqb dirname pathname)
             && (PyStr.contains "*" dirname || PyStr.contains "?" dirname)
          then iglob fuel' f dirname
          else [dirname] in
        flat_map (fun d => map (PosixPath.join d) (in_dir d)) dirs
  end.

Definition glob_magic_dirs (f : fsys bytes) (dirname : string) : list string :=
  iglob (S (String.length dirname)) f dirname.

End Expansion.

End Wildcards.

(** ** More trees and libraries for concrete runs *)

Module Examples.

Definition other_weight : tensor := Tensor F32 [2] [Byte.x02; Byte.x03].
Definition other_model : tensors := {[ "weight" := other_weight ]}.



(** Two source files whose names differ only where each carries an
    extension in the middle. *)
Definition colliding_models : fsys Reference.blob := Fsys [] [
  (["m"], Dir);
  (["m"; "a.safetensors.safetensors"],
   File (Reference.SafetensorsBlob Reference.model));
  (["m"; "a.ckpt.safetensors"], File (Reference.SafetensorsBlob other_model))
].

(** [/m] with a corrupt file followed by a good one. *)
Definition corrupt_first : fsys Reference.blob := Fsys [] [
  (["m"], Dir);
  (["m"; "b.safetensors"], File Reference.CorruptBlob);
  (["m"; "c.safetensors"], File (Reference.SafetensorsBlob Reference.model))
].

End Examples.

(** ** The program over any environment

    The same script with the operating system, the libraries and the
    standard output left open: [print] raises when the standard output
    cannot encode a line, and the file operations are those of the
    environment. *)

Module Hosted.

Record Env := {
  tree : Type;
  (** [os.path.exists] *)
  env_exists : tree -> string -> bool;
  (** [glob] *)
  env_glob : tree -> string -> list string;
  (** [load_file]: its value or the exception it raises *)
  env_load : tree -> string -> exn + tensors;
  (** [torch.save]: the exception it raises, if any, and the tree it
      leaves *)
  env_save : tree -> tensors -> string -> option exn * tree;
  (** whether the encoding of the standard output has every character of
      a line *)
  env_encodes : string -> bool
}.

(** What [print] raises for a line the standard output cannot encode;
    the text stands for the codec's. *)
Definition UnicodeEncodeError : exn :=
  Exception "codec can't encode character".

Section Program.
Context (E : Env).

Record state := State {
  fs : tree E;
  stdout : list string;
  ckpt : option tensors;
  calls : list call
}.

Definition M (A : Type) : Type := state -> result A * state.

#[local] Instance M_ret : MRet M := fun A a s => (Returned a, s).

#[local] Instance M_bind : MBind M := fun A B k m s =>
  match m s with
  | (Returned a, s') => k a s'
  | (Raised e, s') => (Raised e, s')
  end.

Definition try_except {A} (body : M A) (handler : exn -> M A) : M A :=
  fun s =>
    match body s with
    | (Returned a, s') => (Returned a, s')
    | (Raised e, s') => handler e s'
    end.

Fixpoint for_each {A} (l : list A) (body : A -> M unit) : M unit :=
  match l with
  | [] => mret tt
  | x :: l' => body x;; for_each l' body
  end.

Definition log_call (c : call) (s : state) : state :=
  State (fs s) (stdout s) (ckpt s) (calls s ++ [c]).

(** [print(line)]: the line is encoded before anything is written. *)
Definition print (line : string) : M unit := fun s =>
  if env_encodes E line
  then (Returned tt, State (fs s) (stdout s ++ [line]) (ckpt s) (calls s))
  else (Raised UnicodeEncodeError, s).

Definition os_path_exists (path : string) : M bool := fun s =>
  (Returned (env_exists E (fs s) path), log_call (CallExists path) s).

Definition glob (pathname : string) : M (list string) := fun s =>
  (Returned (env_glob E (fs s) pathname), log_call (CallGlob pathname) s).

Definition load_file (path : string) : M tensors := fun s =>
  let s' := log_call (CallLoadFile path) s in
  match env_load E (fs s) path with
  | inl e => (Raised e, s')
  | inr t => (Returned t, s')
  end.

Definition torch_save (obj : tensors) (path : string) : M unit := fun s =>
  let s' := log_call (CallTorchSave path) s in
  match env_save E (fs s) obj path with
  | (None, f') => (Returned tt, State f' (stdout s') (ckpt s') (calls s'))
  | (Some e, f') => (Raised e, State f' (stdout s') (ckpt s') (calls s'))
  end.

Definition assign_ckpt (v : tensors) : M unit := fun s =>
  (Returned tt, State (fs s) (stdout s) (Some v) (calls s)).

Definition del_ckpt : M unit := fun s =>
  (Returned tt, State (fs s) (stdout s) None (calls s)).

Definition gc_collect : M unit := fun s =>
  (Returned tt, log_call CallGcCollect s).

(** The body of the [for] loop of [main]. *)
Definition convert (skip_existing : bool) (filename : string) : M unit :=
  skip ← (if skip_existing then os_path_exists (output_filename filename)
          else mret false);
  if skip : bool then print (skip_line filename)
  else
    try_except
      (print (loading_line filename);;
       v ← load_file filename;
       assign_ckpt v;;
       print (saving_line filename);;
       torch_save v (output_filename filename);;
       del_ckpt;;
       gc_collect;;
       print (success_line filename))
      (fun e => print (error_line filename e)).

Definition main (base_path : string) (skip_existing : bool) : M unit :=
  found ← os_path_exists base_path;
  if negb found then print (missing_line base_path)
  else
    safetensor_files ← glob (base_path ++ "/*.safetensors");
    match safetensor_files with
    | [] => print (none_found_line base_path)
    | _ =>
        print (found_line (length safetensor_files));;
        for_each safetensor_files (convert skip_existing);;
        print complete_line
    end.

Definition start (f : tree E) : state := State f [] None [].

End Program.

Arguments State {E} fs stdout ckpt calls.
Arguments fs {E} s.
Arguments stdout {E} s.
Arguments ckpt {E} s.
Arguments calls {E} s.

(** Lines made of ASCII characters only. *)
Fixpoint is_ascii (line : string) : bool :=
  match line with
  | EmptyString => true
  | String c line' => Nat.ltb (nat_of_ascii c) 128 && is_ascii line'
  end.

(** The file tree and the libraries of the main development, on a
    standard output that encodes every line. *)
Definition standard (L : Libraries) : Env := {|
  tree := fsys bytes;
  env_exists := path_exists;
  env_glob := glob_files;
  env_load := load_result;
  env_save := save_result;
  env_encodes := fun _ => true
|}.

(** The same on a standard output whose encoding has the ASCII characters
    only. *)
Definition ascii_stdout (L : Libraries) : Env := {|
  tree := fsys bytes;
  env_exists := path_exists;
  env_glob := glob_files;
  env_load := load_result;
  env_save := save_result;
  env_encodes := is_ascii
|}.

End Hosted.

(** The state of the main development that a state over
    [Hosted.standard] stands for. *)
Definition lower {L : Libraries} (s : Hosted.state (Hosted.standard L))
  : state :=
  State (Hosted.fs s) (Hosted.stdout s) (Hosted.ckpt s) (Hosted.calls s).

Definition lower_run {L : Libraries} {A}
  (r : result A * Hosted.state (Hosted.standard L)) : result A * state :=
  (r.1, lower r.2).

(** ** A file tree with links

    Directory entries name a directory, a symbolic link or the inode of a
    regular file; two entries with one inode are hard links to one file.
    Every operation the script uses follows symbolic links, as [stat] and
    [open] do. *)

Module Linked.

Inductive entry := Dir | Symlink (target : string) | Inode (i : nat).

Record fsys (bytes : Type) := Fsys {
  cwd : key;
  names : list (key * entry);
  inodes : list (nat * bytes)
}.
Arguments Fsys {bytes} cwd names inodes.
Arguments cwd {bytes} f.
Arguments names {bytes} f.
Arguments inodes {bytes} f.

Fixpoint assoc {K V} `{EqDecision K} (k : K) (l : list (K * V)) : option V :=
  match l with
  | [] => None
  | (k', v) :: l' => if decide (k = k') then Some v else assoc k l'
  end.

(** Replaces the value at [k], or appends a new pair. *)
Fixpoint store {K V} `{EqDecision K} (k : K) (v : V) (l : list (K * V))
  : list (K * V) :=
  match l with
  | [] => [(k, v)]
  | (k', v') :: l' =>
      if decide (k = k') then (k, v) :: l' else (k', v') :: store k v l'
  end.

Section Tree.
Context {bytes : Type}.

Definition lookup_key (f : fsys bytes) (k : key) : option entry :=
  match k with
  | [] => Some Dir
  | _ => assoc k (names f)
  end.

Definition is_dir (f : fsys bytes) (k : key) : bool :=
  match lookup_key f k with
  | Some Dir => true
  | _ => false
  end.

(** Path resolution, one component at a time; a component that names a
    symbolic link is replaced by the components of its target, at most
    [links] times. *)
Fixpoint walk (links : nat) (f : fsys bytes) : key -> list string -> option key :=
  fix go (cur : key) (cs : list string) : option key :=
    match cs with
    | [] => Some cur
    | c :: cs' =>
        if is_dir f cur then
          if String.eqb c "" || String.eqb c "." then go cur cs'
          else if String.eqb c ".." then
            if is_dir f (removelast cur) then go (removelast cur) cs'
            else None
          else
            match lookup_key f (cur ++ [c])%list with
            | Some (Symlink target) =>
                match links, target with
                | S links', String a _ =>
                    walk links' f (if Ascii.eqb a "/" then [] else cur)
                      (PyStr.split "/" target ++ cs')%list
                | _, _ => None
                end
            | _ => go (cur ++ [c])%list cs'
            end
        else None
    end.

(** The kernel follows at most 40 links in one resolution. *)
Definition resolve (f : fsys bytes) (p : string) : option key :=
  match p with
  | EmptyString => None
  | String c _ =>
      walk 40 f (if Ascii.eqb c "/" then [] else cwd f) (PyStr.split "/" p)
  end.

(** [os.path.exists(p)] *)
Definition path_exists (f : fsys bytes) (p : string) : bool :=
  match resolve f p with
  | Some k => match lookup_key f k with Some _ => true | None => false end
  | None => false
  end.

(** [os.listdir(p)], in the order of the entries; nothing when [p] is
    not a directory. *)
Definition listdir (f : fsys bytes) (p : string) : list string :=
  match resolve f p with
  | Some d =>
      if is_dir f d
      then filter (fun n => Is_true (valid_name n))
             (omap (fun e => child_name d e.1) (names f))
      else []
  | None => []
  end.

(** The names in [dirname] that match [*.safetensors]; whatever a name
    stands for, it is listed. *)
Definition glob1 (f : fsys bytes) (dirname : string) : list string :=
  filter (fun n => Is_true (negb (PyStr.startswith "." n)
                            && PyStr.endswith ".safetensors" n))
    (listdir f dirname).

(** [glob(pathname)] for a [pathname] whose last component is
    [*.safetensors]; [magic_dirs] is [glob]'s expansion of a directory
    part that holds wildcard characters. *)
Definition glob_files (magic_dirs : fsys bytes -> string -> list string)
  (f : fsys bytes) (pathname : string) : list string :=
  let dirname := (PosixPath.split pathname).1 in
  let dirs := if has_magic dirname then magic_dirs f dirname
              else [dirname] in
  flat_map (fun d => map (PosixPath.join d) (glob1 f d)) dirs.

(** Opening [p] for reading. *)
Definition read_file (f : fsys bytes) (p : string) : exn + bytes :=
  match resolve f p with
  | None => inl (OSError "No such file or directory" p)
  | Some k =>
      match lookup_key f k with
      | Some (Inode i) =>
          match assoc i (inodes f) with
          | Some b => inr b
          | None => inl (OSError "No such file or directory" p)
          end
      | Some Dir => inl (OSError "Is a directory" p)
      | _ => inl (OSError "No such file or directory" p)
      end
  end.

(** An inode number that is not in use. *)
Definition fresh_inode (f : fsys bytes) : nat :=
  S (foldr Nat.max 0 (map fst (inodes f))).

(** Opening [p] for writing and writing [b]: the file the path leads to
    is truncated and written, or created when there is none; it fails
    when the path does not resolve or names a directory. *)
Definition write_file (f : fsys bytes) (p : string) (b : bytes)
  : exn + fsys bytes :=
  match resolve f p with
  | None => inl (OSError "No such file or directory" p)
  | Some k =>
      match lookup_key f k with
      | Some Dir => inl (OSError "Is a directory" p)
      | Some (Inode i) => inr (Fsys (cwd f) (names f) (store i b (inodes f)))
      | _ =>
          let i := fresh_inode f in
          inr (Fsys (cwd f) (store k (Inode i) (names f))
                 (store i b (inodes f)))
      end
  end.

End Tree.

Section Operations.
Context {L : Libraries}.

(** What [load_file(path)] returns or raises. *)
Definition load_result (f : fsys bytes) (path : string) : exn + tensors :=
  match read_file f path with
  | inl e => inl e
  | inr b => safetensors_deserialize b
  end.

(** What [torch.save(obj, path)] raises, if anything, and the tree it
    leaves. *)
Definition save_result (f : fsys bytes) (obj : tensors) (path : string)
  : option exn * fsys bytes :=
  let written := match torch_serialize obj with
                 | Written b => (None, b)
                 | Aborted e b => (Some e, b)
                 end in
  match write_file f path written.2 with
  | inl e => (Some e, f)
  | inr f' => (written.1, f')
  end.

(** [torch.load(path)] *)
Definition torch_load (f : fsys bytes) (path : string) : option tensors :=
  match read_file f path with
  | inr b => torch_deserialize b
  | inl _ => None
  end.

End Operations.

(** The script on a tree with links, on a standard output that encodes
    every line. *)
Definition host (L : Libraries)
  (magic_dirs : fsys bytes -> string -> list string) : Hosted.Env := {|
  Hosted.tree := fsys bytes;
  Hosted.env_exists := path_exists;
  Hosted.env_glob := glob_files magic_dirs;
  Hosted.env_load := load_result;
  Hosted.env_save := save_result;
  Hosted.env_encodes := fun _ => true
|}.

(** [/m] with two source files and a target name that is a symbolic link
    to the second one. *)
Definition symlinked : fsys Reference.blob := Fsys [] [
  (["m"], Dir);
  (["m"; "a.safetensors"], Inode 1);
  (["m"; "b.safetensors"], Inode 2);
  (["m"; "a.ckpt"], Symlink "b.safetensors")
] [
  (1, Reference.SafetensorsBlob Reference.model);
  (2, Reference.SafetensorsBlob Examples.other_model)
].

(** The same with a hard link in place of the symbolic one. *)
Definition hardlinked : fsys Reference.blob := Fsys [] [
  (["m"], Dir);
  (["m"; "a.safetensors"], Inode 1);
  (["m"; "b.safetensors"], Inode 2);
  (["m"; "a.ckpt"], Inode 2)
] [
  (1, Reference.SafetensorsBlob Reference.model);
  (2, Reference.SafetensorsBlob Examples.other_model)
].

Definition reference_host : Hosted.Env :=
  host Reference.libraries (fun _ _ => []).

End Linked.

(** * Facts about the string operations *)

#[local] Arguments String.append !_ _ : simpl nomatch.

Module StringFacts.
Import PyStr.

Lemma drop_empty n : drop n "" = "".
Proof. by destruct n. Qed.

Lemma drop_drop n m s : drop n (drop m s) = drop (m + n) s.
Proof.
  revert s. induction m as [|m IH]; intros s; [done|].
  destruct s as [|c s]; simpl; [apply drop_empty | apply IH].
Qed.

Lemma drop_app_length a b : drop (String.length a) (a ++ b) = b.
Proof. induction a as [|c a IH]; simpl; auto. Qed.

Lemma take_app_length a b : take (String.length a) (a ++ b) = a.
Proof. induction a as [|c a IH]; simpl; [by destruct b | by rewrite IH]. Qed.

Lemma length_app a b : String.length (a ++ b) = String.length a + String.length b.
Proof. induction a as [|c a IH]; simpl; auto. Qed.

Lemma append_assoc (a b c : string) : (a ++ b) ++ c = a ++ b ++ c.
Proof. induction a as [|x a IH]; simpl; [done | by f_equal]. Qed.

Lemma prefix_refl p : String.prefix p p = true.
Proof.
  induction p as [|c p IH]; simpl; [done|].
  destruct (ascii_dec c c); [done | congruence].
Qed.

Lemma prefix_cons a p s :
  String.prefix (String a p) s = true ->
  exists s', s = String a s' /\ String.prefix p s' = true.
Proof.
  destruct s as [|b s]; simpl; [done|].
  destruct (ascii_dec a b) as [->|]; [eauto | done].
Qed.

Lemma endswith_occurs p s :
  endswith p s = true -> exists i, startswith p (drop i s) = true.
Proof.
  unfold endswith, startswith. intros [_ H]%andb_true_iff.
  apply String.eqb_eq in H. eexists. rewrite H. apply prefix_refl.
Qed.

(** *** [str.replace] of the extension *)

Abbreviation rep := (replace_aux ".safetensors" ".ckpt").

Lemma rep_head x r t :
  rep 0 t = String x r -> x <> "."%char ->
  exists t', t = String x t' /\ rep 0 t' = r.
Proof.
  destruct t as [|c t]; [done|].
  cbn [replace_aux]. destruct (startswith _ _).
  - cbn. intros [= <- _] ?. done.
  - intros [= -> <-] _. eauto.
Qed.

Lemma rep_prefix_literal w t :
  contains "." w = false ->
  String.prefix w (rep 0 t) = true -> String.prefix w t = true.
Proof.
  revert t. induction w as [|x w IH]; intros t Hw H; [by destruct t|].
  cbn in Hw. apply orb_false_iff in Hw as [Hx Hw].
  apply prefix_cons in H as (r & Hr & Hp).
  apply rep_head in Hr as (t' & -> & <-).
  - simpl. destruct (ascii_dec x x); [auto | congruence].
  - intros ->. cbn in Hx. congruence.
Qed.

Lemma rep_no_occurrence s k i :
  startswith ".safetensors" (drop i (rep k s)) = false.
Proof.
  revert k i. induction s as [|c s IH]; intros k i.
  - cbn. by rewrite drop_empty.
  - destruct k as [|k]; [|apply IH].
    cbn [replace_aux]. destruct (startswith ".safetensors" (String c s)) eqn:E.
    + do 5 (destruct i as [|i]; [done|]). apply IH.
    + destruct i as [|i]; [|apply IH].
      cbn [drop]. apply not_true_is_false. intros H.
      unfold startswith in *.
      apply prefix_cons in H as (r & [= -> <-] & Hp).
      apply rep_prefix_literal in Hp; [|done].
      cbn in E. cbn in Hp. congruence.
Qed.

Lemma replace_no_source_suffix f i :
  endswith ".safetensors" (drop i (replace ".safetensors" ".ckpt" f)) = false.
Proof.
  apply not_true_is_false. intros (j & H)%endswith_occurs.
  rewrite drop_drop in H. unfold replace in H.
  by rewrite rep_no_occurrence in H.
Qed.

(** *** [split] and [rstrip] *)

Lemma split_nonempty c s : split c s <> [].
Proof.
  destruct s as [|d s]; cbn; [done|].
  destruct (Ascii.eqb d c); [done|]. by destruct (split c s).
Qed.

Lemma concat_split c s : String.concat (String c "") (split c s) = s.
Proof.
  induction s as [|d s IH]; [done|]. cbn.
  destruct (Ascii.eqb_spec d c) as [->|Hd].
  - pose proof (split_nonempty c s). destruct (split c s) eqn:E; [done|].
    cbn in *. by rewrite IH.
  - pose proof (split_nonempty c s). destruct (split c s) as [|w ws] eqn:E; [done|].
    cbn in *. destruct ws; cbn in *; by rewrite <- IH.
Qed.

Lemma concat_last sep (l : list string) :
  l <> [] -> exists pre, String.concat sep l = pre ++ List.last l "".
Proof.
  induction l as [|w l IH]; [done|]. intros _.
  destruct l as [|w' l]; [by exists ""|].
  destruct IH as [pre Hpre]; [done|].
  exists (w ++ sep ++ pre).
  change (String.concat sep (w :: w' :: l))
    with (w ++ sep ++ String.concat sep (w' :: l)).
  change (List.last (w :: w' :: l) "") with (List.last (w' :: l) "").
  rewrite Hpre. by rewrite !append_assoc.
Qed.

Lemma split_app_sep c a b :
  split c (a ++ String c b) = (split c a ++ split c b)%list.
Proof.
  induction a as [|d a IH]; cbn.
  - by rewrite Ascii.eqb_refl.
  - rewrite IH. destruct (Ascii.eqb d c); [done|].
    pose proof (split_nonempty c a). by destruct (split c a).
Qed.


Lemma rstrip_app_sep c s : rstrip c (s ++ String c "") = rstrip c s.
Proof.
  induction s as [|d s IH]; cbn.
  - by rewrite Ascii.eqb_refl.
  - by rewrite IH.
Qed.


Lemma contains_app c a b : contains c (a ++ b) = contains c a || contains c b.
Proof. induction a as [|d a IH]; cbn; [done|]. by rewrite IH, orb_assoc. Qed.

Lemma contains_rstrip c d s : contains c s = false -> contains c (rstrip d s) = false.
Proof.
  induction s as [|e s IH]; [done|]. cbn.
  intros [He Hs]%orb_false_iff. specialize (IH Hs).
  destruct (rstrip d s); cbn in *.
  - destruct (Ascii.eqb e d); cbn; [done|]. by rewrite He.
  - by rewrite He, IH.
Qed.

Lemma basename_drop p : exists i, PosixPath.basename p = drop i p.
Proof.
  unfold PosixPath.basename.
  destruct (concat_last "/" (split "/" p)) as [pre H];
    [apply split_nonempty|].
  rewrite concat_split in H. exists (String.length pre).
  rewrite H at 2. by rewrite drop_app_length.
Qed.

Lemma basename_replace_not_source p :
  endswith ".safetensors"
    (PosixPath.basename (replace ".safetensors" ".ckpt" p)) = false.
Proof.
  destruct (basename_drop (replace ".safetensors" ".ckpt" p)) as [i ->].
  apply replace_no_source_suffix.
Qed.

End StringFacts.

(** * Facts about the file tree *)

Close Scope string_scope.

Section FileTreeFacts.
Context {bytes : Type}.
Implicit Types (f : fsys bytes) (k d : key) (n : node bytes).

Lemma assoc_store k k' n l :
  assoc k' (store k n l) = if decide (k' = k) then Some n else assoc k' l.
Proof.
  induction l as [|[k0 n0] l IH]; cbn.
  - by repeat case_decide.
  - destruct (decide (k = k0)) as [->|Hk]; cbn; [|rewrite IH];
      repeat case_decide; congruence.
Qed.

Lemma lookup_put f k b k' :
  k <> [] ->
  lookup_key (put f k b) k'
  = if decide (k' = k) then Some (File b) else lookup_key f k'.
Proof.
  intros Hk. unfold lookup_key, put; cbn.
  destruct k' as [|x k'].
  - by rewrite decide_False.
  - apply assoc_store.
Qed.

Lemma is_dir_root f : is_dir f [] = true.
Proof. done. Qed.

Lemma not_dir_not_root f k : is_dir f k = false -> k <> [].
Proof. by intros H ->. Qed.

Lemma is_dir_put f k b k' :
  is_dir f k = false -> is_dir (put f k b) k' = is_dir f k'.
Proof.
  intros Hk. unfold is_dir at 1.
  rewrite lookup_put by by eapply not_dir_not_root.
  case_decide as E; [by subst; rewrite Hk | done].
Qed.

Lemma is_present_put f k b k' :
  is_dir f k = false -> is_present f k' = true ->
  is_present (put f k b) k' = true.
Proof.
  intros Hk. unfold is_present at 2.
  rewrite lookup_put by by eapply not_dir_not_root.
  case_decide; done.
Qed.


(** Resolution only looks at which paths are directories. *)
Lemma walk_ext f f' cur cs :
  (forall k, is_dir f' k = is_dir f k) -> walk f' cur cs = walk f cur cs.
Proof.
  intros H. revert cur. induction cs as [|c cs IH]; intros cur; [done|].
  cbn. rewrite !H, !IH. done.
Qed.

Lemma resolve_ext f f' p :
  cwd f' = cwd f -> (forall k, is_dir f' k = is_dir f k) ->
  resolve f' p = resolve f p.
Proof.
  intros Hc H. destruct p as [|c p]; [done|].
  unfold resolve. rewrite Hc. by apply walk_ext.
Qed.

Lemma walk_app f cur cs cs' :
  walk f cur (cs ++ cs') = walk f cur cs ≫= fun k => walk f k cs'.
Proof.
  revert cur. induction cs as [|c cs IH]; intros cur; [done|].
  cbn. destruct (is_dir f cur); [|done].
  destruct (_ || _); [apply IH|].
  destruct (String.eqb c ".."); [|apply IH].
  destruct (is_dir f (removelast cur)); [apply IH | done].
Qed.

Lemma walk_last f cur cs c k :
  walk f cur (cs ++ [c]) = Some k -> is_dir f k = false ->
  exists k0, k = k0 ++ [c].
Proof.
  rewrite walk_app. destruct (walk f cur cs) as [k1|]; [|done].
  cbn. destruct (is_dir f k1) eqn:E1; [|done].
  destruct (_ || _); [intros [= <-]; congruence|].
  destruct (String.eqb c "..").
  - destruct (is_dir f (removelast k1)) eqn:E2; [|done].
    intros [= <-]; congruence.
  - intros [= <-] _. eauto.
Qed.


(** A path that resolves to something other than a directory ends in the
    name of that thing. *)
Lemma resolve_file_key f p k :
  resolve f p = Some k -> is_dir f k = false ->
  exists k0, k = k0 ++ [PosixPath.basename p].
Proof.
  destruct p as [|c p]; [done|]. unfold resolve, PosixPath.basename.
  pose proof (StringFacts.split_nonempty "/" (String c p)) as Hne.
  rewrite (app_removelast_last EmptyString Hne) at 1.
  apply walk_last.
Qed.


(** *** Directory listings *)

Lemma store_keys k n (l : list (key * node bytes)) :
  (store k n l).*1 = l.*1 \/ (store k n l).*1 = l.*1 ++ [k].
Proof.
  induction l as [|[k0 n0] l IH]; cbn; [by right|].
  case_decide as E; cbn; [left; by subst|].
  destruct IH as [->| ->]; auto.
Qed.

Lemma child_name_last d k x : child_name d k = Some x -> List.last k "" = x.
Proof.
  revert k. induction d as [|y d IH]; intros [|z k]; cbn; try done.
  - destruct k; [by intros [= <-] | done].
  - destruct (String.eqb y z); [|done]. intros H.
    rewrite <- (IH _ H). destruct k; [by destruct d | done].
Qed.

Lemma omap_child_name d (l : list (key * node bytes)) :
  omap (fun e => child_name d e.1) l = omap (child_name d) l.*1.
Proof. induction l as [|e l IH]; cbn; [done|]. by rewrite IH. Qed.

Lemma listdir_put f k b p :
  is_dir f k = false ->
  listdir (put f k b) p = listdir f p
  \/ exists x, List.last k "" = x /\ listdir (put f k b) p = listdir f p ++ [x].
Proof.
  intros Hk. unfold listdir.
  rewrite (resolve_ext f (put f k b)) by (done || by intros; apply is_dir_put).
  destruct (resolve f p) as [d|]; [|by left].
  rewrite is_dir_put by done. destruct (is_dir f d); [|by left].
  rewrite !omap_child_name. cbn [put entries].
  destruct (store_keys k (File b) (entries f)) as [->| ->]; [by left|].
  rewrite omap_app, filter_app. cbn.
  destruct (child_name d k) as [x|] eqn:E; cbn; [|left; by rewrite app_nil_r].
  case_decide.
  - right. exists x. split; [by eapply child_name_last | done].
  - left. by rewrite app_nil_r.
Qed.

End FileTreeFacts.

(** * Facts about the converter *)

Section ConverterFacts.
Context {L : Libraries}.
Implicit Types (s : state) (f : fsys bytes) (k : key).

Lemma convert_unfold skip_existing filename s :
  convert skip_existing filename s
  = (Returned tt, convert_state skip_existing filename s).
Proof.
  unfold convert, convert_state, mbind, M_bind, mret, M_ret, try_except,
    os_path_exists, print, load_file, torch_save, assign_ckpt, del_ckpt,
    gc_collect, log_call.
  destruct skip_existing; cbn.
  - destruct (path_exists _ _); cbn; [done|].
    destruct (load_result _ _) as [e|v]; cbn.
    + by rewrite <- !(assoc_L (++)).
    + destruct (save_result _ _ _) as [[e|] f']; cbn;
        by rewrite <- !(assoc_L (++)).
  - destruct (load_result _ _) as [e|v]; cbn.
    + by rewrite <- !(assoc_L (++)).
    + destruct (save_result _ _ _) as [[e|] f']; cbn;
        by rewrite <- !(assoc_L (++)).
Qed.

Lemma for_each_unfold skip_existing files s :
  for_each files (convert skip_existing) s
  = (Returned tt, foldl (fun s x => convert_state skip_existing x s) s files).
Proof.
  revert s. induction files as [|x files IH]; intros s; [done|].
  cbn. unfold mbind, M_bind. by rewrite convert_unfold, IH.
Qed.

(** *** How the file tree evolves *)

Lemma evolves_refl f : evolves f f.
Proof. by repeat split. Qed.

Lemma evolves_trans f1 f2 f3 : evolves f1 f2 -> evolves f2 f3 -> evolves f1 f3.
Proof.
  intros (C1 & D1 & P1 & S1 & G1) (C2 & D2 & P2 & S2 & G2).
  repeat split; intros; try congruence; auto.
  by rewrite S2, S1.
Qed.

Lemma evolves_put f k b :
  is_dir f k = false -> source_key k = false -> evolves f (put f k b).
Proof.
  intros Hd Hs. repeat split.
  - intros k'. by apply is_dir_put.
  - intros k'. by apply is_present_put.
  - intros k' Hk'. rewrite lookup_put by by eapply not_dir_not_root.
    rewrite decide_False; [done | congruence].
  - intros d. unfold glob1.
    destruct (listdir_put f k b d Hd) as [->|(x & Hx & ->)]; [done|].
    rewrite filter_app, filter_cons, decide_False, filter_nil, app_nil_r; [done|].
    unfold source_key in Hs. rewrite Hx in Hs. rewrite Hs.
    rewrite andb_false_r. auto.
Qed.

Lemma written_key_not_source f x k :
  resolve f (output_filename x) = Some k -> is_dir f k = false ->
  source_key k = false.
Proof.
  intros Hr Hd. destruct (resolve_file_key _ _ _ Hr Hd) as [k0 ->].
  unfold source_key. rewrite last_last.
  apply StringFacts.basename_replace_not_source.
Qed.

Lemma save_result_evolves f v x :
  evolves f (save_result f v (output_filename x)).2.
Proof.
  unfold save_result, open_for_writing.
  destruct (resolve f _) as [k|] eqn:Hr; [|apply evolves_refl].
  destruct (is_dir f k) eqn:Hd; [apply evolves_refl|].
  destruct (torch_serialize v); cbn;
    apply evolves_put; eauto using written_key_not_source.
Qed.

Lemma convert_evolves skip_existing x s :
  evolves (fs s) (fs (convert_state skip_existing x s)).
Proof.
  unfold convert_state.
  destruct (_ && _); [apply evolves_refl|].
  destruct (load_result _ _) as [e|v]; [apply evolves_refl|].
  pose proof (save_result_evolves (fs s) v x) as H.
  by destruct (save_result _ _ _) as [[e|] f'].
Qed.

Lemma loop_evolves skip_existing files s :
  evolves (fs s) (fs (foldl (fun s x => convert_state skip_existing x s) s files)).
Proof.
  revert s. induction files as [|x files IH]; intros s; [apply evolves_refl|].
  cbn. eapply evolves_trans; [apply convert_evolves | apply IH].
Qed.

End ConverterFacts.

Section MainFacts.
Context {L : Libraries}.
Implicit Types (s : state) (f : fsys bytes) (k : key).

Lemma main_unfold base_path skip_existing s :
  main base_path skip_existing s
  = (Returned tt,
     if path_exists (fs s) base_path then
       let pattern := base_path +:+ "/*.safetensors" in
       let s1 := log_call (CallGlob pattern)
                   (log_call (CallExists base_path) s) in
       match glob_files (fs s) pattern with
       | [] => exec (print (none_found_line base_path)) s1
       | files =>
           exec (print complete_line)
             (foldl (fun s x => convert_state skip_existing x s)
                (exec (print (found_line (length files))) s1) files)
       end
     else exec (print (missing_line base_path))
            (log_call (CallExists base_path) s)).
Proof.
  unfold main, mbind, M_bind, os_path_exists, glob, exec. cbn.
  destruct (path_exists (fs s) base_path); cbn; [|done].
  destruct (glob_files _ _) as [|x files] eqn:E; [done|].
  unfold print at 1. cbv beta iota.
  rewrite for_each_unfold. done.
Qed.

Lemma main_returns base_path skip_existing s :
  outcome (main base_path skip_existing) s = Returned tt.
Proof. unfold outcome. by rewrite main_unfold. Qed.

(** The directory part of the pattern that [main] hands to [glob]. *)
Lemma pattern_dirname base_path :
  (PosixPath.split (base_path +:+ "/*.safetensors")).1
  = match PyStr.rstrip "/" base_path with
    | EmptyString => base_path +:+ "/"
    | stripped => stripped
    end.
Proof.
  unfold PosixPath.split.
  assert (PosixPath.basename (base_path +:+ "/*.safetensors") = "*.safetensors")
    as ->.
  { unfold PosixPath.basename.
    change (base_path +:+ "/*.safetensors")
      with (base_path +:+ String "/" "*.safetensors").
    rewrite StringFacts.split_app_sep. cbn. by rewrite last_last. }
  change (base_path +:+ "/*.safetensors")
    with (base_path +:+ ("/" +:+ "*.safetensors")).
  rewrite <- StringFacts.append_assoc.
  replace (String.length ((base_path +:+ "/") +:+ "*.safetensors")
           - String.length "*.safetensors")
    with (String.length (base_path +:+ "/"))
    by (rewrite (StringFacts.length_app (base_path +:+ "/")); lia).
  rewrite StringFacts.take_app_length, StringFacts.rstrip_app_sep.
  by destruct (PyStr.rstrip "/" base_path).
Qed.

Lemma has_magic_pattern_dirname base_path :
  has_magic base_path = false ->
  has_magic (PosixPath.split (base_path +:+ "/*.safetensors")).1 = false.
Proof.
  rewrite pattern_dirname. unfold has_magic.
  intros [[H1 H2]%orb_false_iff H3]%orb_false_iff.
  destruct (PyStr.rstrip "/" base_path) eqn:E.
  - rewrite !StringFacts.contains_app, H1, H2, H3. done.
  - rewrite <- E.
    by rewrite !StringFacts.contains_rstrip.
Qed.

End MainFacts.

(** * Properties of the converter *)

Section PathChecks.
Context {L : Libraries}.
Implicit Types (s : state) (k : key).




End PathChecks.



Section LoopBody.
Context {L : Libraries}.
Implicit Types (s : state) (f : fsys bytes) (k : key).

Lemma read_after_put f p k b :
  resolve f p = Some k -> is_dir f k = false ->
  read_file (put f k b) p = inr b.
Proof.
  intros Hr Hd. unfold read_file.
  rewrite (resolve_ext f (put f k b)) by (done || by intros; apply is_dir_put).
  rewrite Hr, lookup_put by by eapply not_dir_not_root.
  by rewrite decide_True.
Qed.

Lemma readable_is_writable f p old :
  read_file f p = inr old ->
  exists k, resolve f p = Some k /\ is_dir f k = false.
Proof.
  unfold read_file, is_dir. destruct (resolve f p) as [k|]; [|done].
  destruct (lookup_key f k) as [[c|]|] eqn:E; [|done..].
  intros _. exists k. by rewrite E.
Qed.

Lemma printed_since_app s s' lines :
  stdout s' = stdout s ++ lines -> printed_since s s' = lines.
Proof. unfold printed_since. intros ->. by rewrite drop_app_length. Qed.

Lemma called_since_app s s' cs :
  calls s' = calls s ++ cs -> called_since s s' = cs.
Proof. unfold called_since. intros ->. by rewrite drop_app_length. Qed.

Lemma exec_convert skip_existing x s :
  exec (convert skip_existing x) s = convert_state skip_existing x s.
Proof. unfold exec. by rewrite convert_unfold. Qed.

(** One pass of the loop body. With skip-existing on, a file whose target
    exists is skipped: the skip message is printed and nothing is loaded
    or saved. With skip-existing off, the file is loaded without any
    existence test, and when load and save succeed the target, whether
    it existed or not, holds the new archive. *)
Lemma pass_skip_policy x s :
  (path_exists (fs s) (output_filename x) = true ->
   convert true x s
   = (Returned tt,
      State (fs s) (stdout s ++ [skip_line x]) (ckpt s)
        (calls s ++ [CallExists (output_filename x)])))
  /\ (exists rest,
        called_since s (exec (convert false x) s) = CallLoadFile x :: rest)
  /\ (forall v b k,
        load_result (fs s) x = inr v ->
        torch_serialize v = Written b ->
        resolve (fs s) (output_filename x) = Some k ->
        is_dir (fs s) k = false ->
        let s' := exec (convert false x) s in
        read_file (fs s') (output_filename x) = inr b
        /\ printed_since s s'
           = [loading_line x; saving_line x; success_line x]).
Proof.
  split; [|split].
  - intros H. rewrite convert_unfold. unfold convert_state. by rewrite H.
  - rewrite exec_convert. unfold convert_state. cbn [andb].
    destruct (load_result _ _) as [e|v];
      [|destruct (save_result _ _ _) as [[e|] f']];
      eexists; by apply called_since_app.
  - intros v b k Hl Hs Hr Hd s'. subst s'.
    rewrite exec_convert. unfold convert_state. cbn [andb].
    rewrite Hl. unfold save_result, open_for_writing. rewrite Hr, Hd, Hs.
    split; [by apply read_after_put | by apply printed_since_app].
Qed.

Lemma check_mark_not_cross a b : check_mark +:+ a <> cross_mark +:+ b.
Proof. discriminate. Qed.

Lemma check_mark_not_skip a b : check_mark +:+ a <> "Skipping " +:+ b.
Proof. discriminate. Qed.

Lemma last_of_three {A} (l : list A) a b c d :
  List.last (l ++ [a; b; c]) d = c.
Proof.
  replace (l ++ [a; b; c]) with ((l ++ [a; b]) ++ [c])
    by (by rewrite <- (assoc_L (++))).
  apply last_last.
Qed.

Lemma last_of_two {A} (l : list A) a b d : List.last (l ++ [a; b]) d = b.
Proof.
  replace (l ++ [a; b]) with ((l ++ [a]) ++ [b])
    by (by rewrite <- (assoc_L (++))).
  apply last_last.
Qed.

(** The last line one pass of the loop body prints. *)
Lemma last_line_of_convert skip_existing x s :
  List.last (stdout (exec (convert skip_existing x) s)) EmptyString
  = if skip_existing && path_exists (fs s) (output_filename x)
    then skip_line x
    else match load_result (fs s) x with
         | inl e => error_line x e
         | inr v =>
             match (save_result (fs s) v (output_filename x)).1 with
             | Some e => error_line x e
             | None => success_line x
             end
         end.
Proof.
  rewrite exec_convert. unfold convert_state.
  destruct (_ && _); [apply last_last|].
  destruct (load_result _ _) as [e|v]; [apply last_of_two|].
  destruct (save_result _ _ _) as [[e|] f']; apply last_of_three.
Qed.

(** The file tree one pass of the loop body leaves. *)
Lemma fs_after_convert skip_existing x s :
  fs (exec (convert skip_existing x) s)
  = if skip_existing && path_exists (fs s) (output_filename x) then fs s
    else match load_result (fs s) x with
         | inl _ => fs s
         | inr v => (save_result (fs s) v (output_filename x)).2
         end.
Proof.
  rewrite exec_convert. unfold convert_state.
  destruct (_ && _); [done|].
  destruct (load_result _ _) as [e|v]; [done|].
  by destruct (save_result _ _ _) as [[e|] f'].
Qed.

(** One pass of the loop body: a file that holds the dictionary [m] and
    is reported as successfully converted leaves, right after the pass, a
    target that [torch.load] reads back as a dictionary with the same
    names and, for each name, the same shape, dtype and values, provided
    [torch.load] inverts [torch.save]. *)
Lemma pass_round_trips skip_existing x s m :
  (forall t b, torch_serialize t = Written b -> torch_deserialize b = Some t) ->
  load_result (fs s) x = inr m ->
  List.last (stdout (exec (convert skip_existing x) s)) EmptyString
  = success_line x ->
  exists m',
    torch_load (fs (exec (convert skip_existing x) s)) (output_filename x)
    = Some m'
    /\ same_tensors m' m.
Proof.
  intros Hlib Hl. rewrite last_line_of_convert, fs_after_convert, Hl.
  destruct (_ && _).
  { intros H. symmetry in H. by apply check_mark_not_skip in H. }
  unfold save_result, open_for_writing.
  destruct (resolve _ _) as [k|] eqn:Hr; cbn [fst snd].
  2:{ intros H. symmetry in H. by apply check_mark_not_cross in H. }
  destruct (is_dir _ k) eqn:Hd; cbn [fst snd].
  { intros H. symmetry in H. by apply check_mark_not_cross in H. }
  destruct (torch_serialize m) as [b|e b] eqn:Hs; cbn [fst snd].
  - intros _. exists m. split.
    + unfold torch_load. rewrite (read_after_put _ _ _ _ Hr Hd). eauto.
    + split; [done|]. intros name ta tb Ha Hb.
      rewrite Ha in Hb. by injection Hb as ->.
  - intros H. symmetry in H. by apply check_mark_not_cross in H.
Qed.

(** What the variable [ckpt] holds after one pass of the loop body. *)
Lemma ckpt_after_convert skip_existing x s :
  ckpt (exec (convert skip_existing x) s)
  = if skip_existing && path_exists (fs s) (output_filename x) then ckpt s
    else match load_result (fs s) x with
         | inl _ => ckpt s
         | inr v =>
             match (save_result (fs s) v (output_filename x)).1 with
             | Some _ => Some v
             | None => None
             end
         end.
Proof.
  rewrite exec_convert. unfold convert_state.
  destruct (_ && _); [done|].
  destruct (load_result _ _) as [e|v]; [done|].
  by destruct (save_result _ _ _) as [[e|] f'].
Qed.

End LoopBody.
(** The target name when the extension occurs only at the end of the
    path. *)
Lemma output_filename_single_extension stem :
  (forall i, i < String.length stem ->
     PyStr.startswith ".safetensors" (PyStr.drop i (stem +:+ ".safetensors"))
     = false) ->
  output_filename (stem +:+ ".safetensors") = stem +:+ ".ckpt".
Proof.
  unfold output_filename, PyStr.replace.
  induction stem as [|c stem IH]; intros H; [done|].
  cbn [String.append PyStr.replace_aux].
  pose proof (H 0 ltac:(cbn; lia)) as H0.
  cbn [PyStr.drop String.append] in H0. rewrite H0. f_equal. apply IH.
  intros i Hi. apply (H (S i)). cbn. lia.
Qed.

(** C5. [str.replace] rewrites every occurrence of the extension, so a
    file found in a directory whose own name carries [.safetensors] gets a
    target in another directory: the run then fails to save it, the
    directory [/models.ckpt] being absent. *)
Theorem output_filename_rewrites_directory :
  let s := Reference.start Reference.libraries Reference.nested_models in
  glob_files (L := Reference.libraries) Reference.nested_models
    "/models.safetensors/*.safetensors"
  = ["/models.safetensors/a.safetensors"]
  /\ output_filename "/models.safetensors/a.safetensors" = "/models.ckpt/a.ckpt"
  /\ PosixPath.split "/models.safetensors/a.safetensors"
     = ("/models.safetensors", "a.safetensors")
  /\ PosixPath.split (output_filename "/models.safetensors/a.safetensors")
     = ("/models.ckpt", "a.ckpt")
  /\ printed_since s (exec (main "/models.safetensors" true) s)
     = [found_line 1;
        loading_line "/models.safetensors/a.safetensors";
        saving_line "/models.safetensors/a.safetensors";
        error_line "/models.safetensors/a.safetensors"
          (OSError "No such file or directory" "/models.ckpt/a.ckpt");
        complete_line]
  /\ fs (exec (main "/models.safetensors" true) s) = Reference.nested_models.
Proof. vm_compute. repeat split. Qed.

(** C7. On a full disk the save of [a] fails after the load has
    succeeded: the loop body is left through the handler, which does not
    release the dictionary, so the variable [ckpt] still holds it when the
    next pass of the loop starts. *)
Theorem ckpt_held_after_failed_save :
  let s := Reference.start Reference.libraries_full_disk Reference.models in
  let s1 := exec (convert true "/m/a.safetensors") s in
  ckpt s = None
  /\ List.last (stdout s1) EmptyString
     = error_line "/m/a.safetensors" Reference.disk_full
  /\ ckpt s1 = Some Reference.model
  /\ for_each ["/m/a.safetensors"; "/m/b.safetensors"] (convert true) s
     = for_each ["/m/b.safetensors"] (convert true) s1
  /\ ckpt (exec (main "/m" true) s) = Some Reference.model.
Proof. vm_compute. repeat split. Qed.

Section Batch.
Context {L : Libraries}.
Implicit Types (s : state) (f : fsys bytes) (k : key).

Abbreviation run_loop sk fl st :=
  (foldl (fun s0 x0 => convert_state sk x0 s0) st fl).

Lemma exec_loop skip_existing files s :
  exec (for_each files (convert skip_existing)) s
  = run_loop skip_existing files s.
Proof. unfold exec. by rewrite for_each_unfold. Qed.

(** On a standard output that takes every line: an exception raised
    while a file is loaded or saved is caught in the loop body, the error
    line with the file's name and the cause is printed and the loop goes
    on with the files that follow. *)
Lemma failure_is_isolated_when_printable skip_existing pre x post s :
  let loop := fun l => for_each l (convert skip_existing) in
  let s1 := exec (loop pre) s in
  let s2 := exec (convert skip_existing x) s1 in
  outcome (loop (pre ++ x :: post)) s = Returned tt
  /\ exec (loop (pre ++ x :: post)) s = exec (loop post) s2
  /\ (skip_existing && path_exists (fs s1) (output_filename x) = false ->
      (forall e, load_result (fs s1) x = inl e ->
         printed_since s1 s2 = [loading_line x; error_line x e])
      /\ (forall v e, load_result (fs s1) x = inr v ->
            (save_result (fs s1) v (output_filename x)).1 = Some e ->
            printed_since s1 s2
            = [loading_line x; saving_line x; error_line x e]))
  /\ (forall base_path s0,
        outcome (main base_path skip_existing) s0 = Returned tt).
Proof.
  intros loop s1 s2. subst loop s1 s2. split; [|split; [|split]].
  - unfold outcome. by rewrite for_each_unfold.
  - rewrite !exec_loop, exec_convert. by rewrite foldl_app.
  - intros Hskip. rewrite exec_convert. unfold convert_state.
    rewrite Hskip. split.
    + intros e ->. by apply printed_since_app.
    + intros v e -> He.
      destruct (save_result _ _ _) as [[e'|] f']; cbn in He; [|done].
      injection He as ->. by apply printed_since_app.
  - intros. apply main_returns.
Qed.

(** *** What a run prints, calls and writes *)

Lemma convert_calls skip_existing x s :
  exists cs,
    calls (convert_state skip_existing x s) = calls s ++ cs
    /\ forall p, CallTorchSave p ∈ cs -> p = output_filename x.
Proof.
  unfold convert_state.
  destruct (_ && _);
    [|destruct (load_result _ _) as [e|v];
      [|destruct (save_result _ _ _) as [[e|] f']]];
    (eexists; split; [reflexivity|]);
    destruct skip_existing; intros p Hp;
    rewrite ?elem_of_app, ?elem_of_cons, ?elem_of_nil in Hp;
    intuition (try discriminate; congruence).
Qed.

Lemma loop_calls skip_existing files s :
  exists cs,
    calls (run_loop skip_existing files s) = calls s ++ cs
    /\ forall p, CallTorchSave p ∈ cs ->
         exists x, x ∈ files /\ p = output_filename x.
Proof.
  revert s. induction files as [|x files IH]; intros s.
  - exists []. split; [by rewrite app_nil_r | set_solver].
  - cbn. destruct (IH (convert_state skip_existing x s)) as (cs2 & -> & H2).
    destruct (convert_calls skip_existing x s) as (cs1 & -> & H1).
    exists (cs1 ++ cs2). split; [by rewrite (assoc_L (++))|].
    intros p [Hp|Hp]%elem_of_app.
    + exists x. split; [left | auto].
    + destruct (H2 p Hp) as (y & Hy & ->). exists y. split; [by right | done].
Qed.



Lemma convert_untouched_key skip_existing x s k :
  resolve (fs s) (output_filename x) <> Some k ->
  lookup_key (fs (convert_state skip_existing x s)) k = lookup_key (fs s) k.
Proof.
  rewrite <- exec_convert, fs_after_convert.
  destruct (_ && _); [done|].
  destruct (load_result _ _) as [e|v]; [done|].
  unfold save_result, open_for_writing.
  destruct (resolve _ _) as [k0|]; [|done].
  destruct (is_dir _ k0) eqn:Hd; [done|].
  intros Hk.
  destruct (torch_serialize v); cbn [snd];
    rewrite lookup_put by (by eapply not_dir_not_root);
    case_decide; congruence.
Qed.

Lemma evolves_resolve f f' p : evolves f f' -> resolve f' p = resolve f p.
Proof. intros (Hc & Hd & _). by apply resolve_ext. Qed.

Lemma loop_untouched_key skip_existing files s k :
  (forall x, x ∈ files -> resolve (fs s) (output_filename x) <> Some k) ->
  lookup_key (fs (run_loop skip_existing files s)) k = lookup_key (fs s) k.
Proof.
  revert s. induction files as [|x files IH]; intros s H; [done|].
  cbn. rewrite IH.
  - apply convert_untouched_key, H. left.
  - intros y Hy.
    rewrite (evolves_resolve _ _ _ (convert_evolves skip_existing x s)).
    apply H. by right.
Qed.

(** A target written by one pass is read back the same way after the
    rest of the loop, unless a later file has the same target. *)
Lemma converted_target_survives skip_existing post s x :
  (forall y, y ∈ post ->
     resolve (fs s) (output_filename y) <> resolve (fs s) (output_filename x)) ->
  torch_load (fs (run_loop skip_existing post s)) (output_filename x)
  = torch_load (fs s) (output_filename x).
Proof.
  intros H. unfold torch_load, read_file.
  rewrite (evolves_resolve _ _ _ (loop_evolves skip_existing post s)).
  destruct (resolve (fs s) (output_filename x)) as [k|] eqn:Hr; [|done].
  by rewrite loop_untouched_key.
Qed.

(** A file that one pass reports as successfully converted reads back,
    after the rest of the loop, as the dictionary it held, unless a later
    file has the same target. *)
Lemma round_trip_survives_the_loop skip_existing pre x post s m :
  (forall t b, torch_serialize t = Written b -> torch_deserialize b = Some t) ->
  let sx := run_loop skip_existing pre s in
  let sy := exec (convert skip_existing x) sx in
  load_result (fs sx) x = inr m ->
  List.last (stdout sy) EmptyString = success_line x ->
  (forall y, y ∈ post ->
     resolve (fs sy) (output_filename y)
     <> resolve (fs sy) (output_filename x)) ->
  exists m',
    torch_load (fs (run_loop skip_existing (pre ++ x :: post) s))
      (output_filename x)
    = Some m'
    /\ same_tensors m' m.
Proof.
  intros Hlib sx sy Hl Hok Hpost.
  rewrite foldl_app. cbn [foldl]. fold sx. rewrite <- exec_convert. fold sy.
  rewrite converted_target_survives by done.
  by apply pass_round_trips.
Qed.

(** The three ways a run of [main] can go. *)
Lemma main_cases base_path skip_existing s :
  let s' := exec (main base_path skip_existing) s in
  let pattern := base_path +:+ "/*.safetensors" in
  let files := glob_files (fs s) pattern in
  (path_exists (fs s) base_path = false
   /\ s' = State (fs s) (stdout s ++ [missing_line base_path]) (ckpt s)
             (calls s ++ [CallExists base_path]))
  \/ (path_exists (fs s) base_path = true /\ files = []
      /\ s' = State (fs s) (stdout s ++ [none_found_line base_path]) (ckpt s)
                (calls s ++ [CallExists base_path; CallGlob pattern]))
  \/ (path_exists (fs s) base_path = true /\ files <> []
      /\ let s1 := State (fs s) (stdout s ++ [found_line (length files)])
                     (ckpt s)
                     (calls s ++ [CallExists base_path; CallGlob pattern]) in
         let s2 := run_loop skip_existing files s1 in
         s' = State (fs s2) (stdout s2 ++ [complete_line]) (ckpt s2)
                (calls s2)).
Proof.
  intros s' pattern files. subst s'. unfold exec.
  rewrite main_unfold. cbn [snd]. fold pattern. cbv zeta. fold files.
  destruct (path_exists (fs s) base_path); [|by left].
  right. destruct files as [|x files'] eqn:E.
  - left. repeat split. unfold exec, print, log_call. cbn.
    by rewrite <- (assoc_L (++)).
  - right. repeat split; [done|]. unfold exec, print, log_call. cbn.
    by rewrite <- (assoc_L (++)).
Qed.

Lemma main_evolves base_path skip_existing s :
  evolves (fs s) (fs (exec (main base_path skip_existing) s)).
Proof.
  destruct (main_cases base_path skip_existing s)
    as [[_ ->]|[(_ & _ & ->)|(_ & _ & ->)]]; try apply evolves_refl.
  cbn. apply (loop_evolves skip_existing _ (State _ _ _ _)).
Qed.

(** C10. On a file tree without symbolic or hard links, a run never
    changes, removes or renames a source file: every file whose name
    carries the source extension has the contents it had before, nothing
    that was present disappears, every save goes to the target derived
    from a discovered file, and whatever is not such a target is left as
    it was. *)
Theorem main_preserves_sources base_path skip_existing s :
  let s' := exec (main base_path skip_existing) s in
  let files := glob_files (fs s) (base_path +:+ "/*.safetensors") in
  (forall k, source_key k = true ->
     lookup_key (fs s') k = lookup_key (fs s) k)
  /\ (forall k, is_present (fs s) k = true -> is_present (fs s') k = true)
  /\ (forall p, CallTorchSave p ∈ called_since s s' ->
        exists x, x ∈ files /\ p = output_filename x)
  /\ (forall k,
        (forall x, x ∈ files ->
           resolve (fs s) (output_filename x) <> Some k) ->
        lookup_key (fs s') k = lookup_key (fs s) k).
Proof.
  intros s' files.
  pose proof (main_evolves base_path skip_existing s) as (_ & _ & Hp & Hs & _).
  split; [exact Hs|]. split; [exact Hp|].
  subst s'.
  destruct (main_cases base_path skip_existing s)
    as [[_ ->]|[(_ & _ & ->)|(_ & _ & ->)]].
  - split; [|done]. intros p.
    rewrite (called_since_app _ _ [CallExists base_path]) by done.
    rewrite elem_of_cons, elem_of_nil. intuition discriminate.
  - split; [|done]. intros p.
    rewrite (called_since_app _ _ [CallExists base_path; CallGlob _]) by done.
    rewrite !elem_of_cons, elem_of_nil. intuition discriminate.
  - cbv zeta. fold files.
    set (s1 := State (fs s) _ (ckpt s) _). split.
    + destruct (loop_calls skip_existing files s1) as (cs & Hcs & Hsave).
      intros p.
      rewrite (called_since_app _ _
                 ([CallExists base_path;
                   CallGlob (base_path +:+ "/*.safetensors")] ++ cs)).
      * rewrite elem_of_app, !elem_of_cons, elem_of_nil.
        intros [[?|[?|[]]]|?]; try discriminate. auto.
      * cbn [calls]. rewrite Hcs. subst s1. cbn [calls].
        by rewrite <- (assoc_L (++)).
    + intros k Hk. cbn [fs]. by rewrite loop_untouched_key.
Qed.




End Batch.

(** * Running the batch a second time *)

Section GlobFacts.
Context {L : Libraries}.
Implicit Types (s : state) (f : fsys bytes) (k : key).









End GlobFacts.

Section SecondRun.
Context {L : Libraries}.
Implicit Types (s : state) (f : fsys bytes) (k : key).

Abbreviation loop_state fl st :=
  (foldl (fun s0 x0 => convert_state true x0 s0) st fl).

















End SecondRun.

Section Idempotence.
Context {L : Libraries}.
Implicit Types (s : state) (f : fsys bytes) (k : key).

Lemma not_converted_header :
  PyStr.startswith check_mark complete_line = false
  /\ (forall n, PyStr.startswith check_mark (found_line n) = false)
  /\ (forall b, PyStr.startswith check_mark (none_found_line b) = false).
Proof. done. Qed.


(** *** What a run writes *)










End Idempotence.

(** * Concrete runs *)

Lemma failure_is_isolated_when_printable_witness :
  let s := Reference.start Reference.libraries Reference.models in
  let s1 := exec (for_each ["/m/a.safetensors"] (convert true)) s in
  let s2 := exec (convert true "/m/b.safetensors") s1 in
  printed_since s1 s2
  = [loading_line "/m/b.safetensors";
     error_line "/m/b.safetensors" Reference.header_error]
  /\ exec (for_each ["/m/a.safetensors"; "/m/b.safetensors";
                     "/m/c.safetensors"] (convert true)) s
     = exec (for_each ["/m/c.safetensors"] (convert true)) s2.
Proof.
  intros s s1 s2.
  destruct (failure_is_isolated_when_printable (L := Reference.libraries) true
              ["/m/a.safetensors"] "/m/b.safetensors" ["/m/c.safetensors"] s)
    as (_ & Hnext & Hfail & _).
  split; [|exact Hnext].
  apply Hfail; vm_compute; reflexivity.
Defined.

Lemma main_preserves_sources_witness :
  let s := Reference.start Reference.libraries Reference.models in
  lookup_key (fs (exec (main "/m" false) s)) ["m"; "a.safetensors"]
  = lookup_key (fs s) ["m"; "a.safetensors"].
Proof.
  intros s.
  apply (proj1 (main_preserves_sources (L := Reference.libraries)
                  "/m" false s)).
  vm_compute. reflexivity.
Defined.




(** * Further properties: target names *)

Lemma occurs_false p s :
  (forall i, PyStr.startswith p (PyStr.drop i s) = false) ->
  occurs p s = false.
Proof.
  induction s as [|c s IH]; intros H; cbn [occurs];
    pose proof (H 0) as H0; cbn [PyStr.drop] in H0; rewrite H0; [done|].
  rewrite IH; [done|]. intros i. apply (H (S i)).
Qed.

Lemma replace_aux_identity s :
  (forall i, PyStr.startswith ".safetensors" (PyStr.drop i s) = false) ->
  PyStr.replace_aux ".safetensors" ".ckpt" 0 s = s.
Proof.
  induction s as [|c s IH]; intros H; [done|].
  cbn [PyStr.replace_aux].
  pose proof (H 0) as H0. cbn [PyStr.drop] in H0. rewrite H0.
  f_equal. apply IH.
  intros i. apply (H (S i)).
Qed.

(** The target name holds no occurrence of the source extension, so a
    target is never taken for a source; in particular the target of a
    file that carries the extension differs from the file itself. *)
Theorem target_never_matches_source x :
  occurs ".safetensors" (output_filename x) = false
  /\ PyStr.endswith ".safetensors" (PosixPath.basename (output_filename x))
     = false
  /\ (PyStr.endswith ".safetensors" x = true -> output_filename x <> x).
Proof.
  split; [|split].
  - apply occurs_false. intros i. apply StringFacts.rep_no_occurrence.
  - apply StringFacts.basename_replace_not_source.
  - intros Hx Heq.
    pose proof (StringFacts.replace_no_source_suffix x 0) as H.
    cbn [PyStr.drop] in H. unfold output_filename in Heq.
    rewrite Heq in H. congruence.
Qed.

(** Renaming a target changes nothing: [output_filename] is idempotent. *)
Theorem output_filename_idempotent x :
  output_filename (output_filename x) = output_filename x.
Proof.
  unfold output_filename at 1. unfold PyStr.replace.
  apply replace_aux_identity. intros i. apply StringFacts.rep_no_occurrence.
Qed.

Lemma target_never_matches_source_witness :
  output_filename "/m/a.safetensors" <> "/m/a.safetensors".
Proof.
  apply (proj2 (proj2 (target_never_matches_source "/m/a.safetensors"))).
  vm_compute. reflexivity.
Defined.

Lemma output_filename_single_extension_witness :
  output_filename ("/m/a" +:+ ".safetensors") = "/m/a" +:+ ".ckpt".
Proof.
  apply (output_filename_single_extension "/m/a").
  intros i Hi. do 4 (destruct i as [|i]; [vm_compute; reflexivity|]).
  cbn in Hi. lia.
Defined.

(** * Further properties: runs *)

Section Runs.
Context {L : Libraries}.
Implicit Types (s : state) (f : fsys bytes) (k : key).

Abbreviation batch sk fl st :=
  (foldl (fun s0 x0 => convert_state sk x0 s0) st fl).

(** A relation between states that holds across one pass of the loop body
    holds across the loop. *)
Lemma loop_rel skip_existing files (R : state -> state -> Prop) :
  (forall s, R s s) ->
  (forall a b c, R a b -> R b c -> R a c) ->
  (forall x s, x ∈ files -> R s (convert_state skip_existing x s)) ->
  forall s, R s (batch skip_existing files s).
Proof.
  intros Hrefl Htrans. induction files as [|y files IH]; intros Hstep s.
  - apply Hrefl.
  - cbn. eapply Htrans; [apply Hstep; left|].
    apply IH. intros x s' Hx. apply Hstep. by right.
Qed.


(** *** Without force nothing is overwritten *)

Lemma convert_keeps_present x s k :
  is_present (fs s) k = true ->
  lookup_key (fs (convert_state true x s)) k = lookup_key (fs s) k.
Proof.
  intros Hk. rewrite <- exec_convert, fs_after_convert. cbn [andb].
  destruct (path_exists (fs s) _) eqn:He; [done|].
  destruct (load_result _ _) as [e|v]; [done|].
  unfold save_result, open_for_writing.
  unfold path_exists in He.
  destruct (resolve _ _) as [k0|]; [|done].
  destruct (is_dir _ k0) eqn:Hd; [done|].
  destruct (torch_serialize v); cbn [snd];
    rewrite lookup_put by (by eapply not_dir_not_root);
    case_decide; congruence.
Qed.

Lemma loop_keeps_present files s k :
  is_present (fs s) k = true ->
  lookup_key (fs (batch true files s)) k = lookup_key (fs s) k.
Proof.
  revert k.
  apply (loop_rel true files
           (fun a b => evolves (fs a) (fs b)
                       /\ forall k, is_present (fs a) k = true ->
                            lookup_key (fs b) k = lookup_key (fs a) k)).
  - intros a. split; [apply evolves_refl | done].
  - intros a b c [Eab Hab] [Ebc Hbc]. split; [by eapply evolves_trans|].
    intros k Hk. rewrite Hbc, Hab; [done..|].
    destruct Eab as (_ & _ & Hp & _). by apply Hp.
  - intros x a _. split; [apply convert_evolves|].
    intros k. apply convert_keeps_present.
Qed.

(** Run without [--force], the script only creates files: whatever was
    present before the run is left as it was. *)
Theorem without_force_nothing_is_overwritten (args : Cli.Namespace) s k :
  Cli.force args = false ->
  is_present (fs s) k = true ->
  lookup_key (fs (exec (Cli.script args) s)) k = lookup_key (fs s) k.
Proof.
  intros Hf Hk. unfold Cli.script. rewrite Hf. cbn [negb].
  destruct (main_cases (Cli.base_path args) true s)
    as [[_ ->]|[(_ & _ & ->)|(_ & _ & ->)]]; [done..|].
  cbn [fs]. by apply (loop_keeps_present _ (State _ _ _ _)).
Qed.

(** *** With force every file is loaded *)






(** *** Every file has exactly one outcome *)











(** *** Release after a success *)

(** A pass of the loop body that reports success ends with [ckpt]
    unbound, and its calls are the load, the save and one [gc.collect()],
    after the existence test when skip-existing is on. *)
Theorem success_releases_ckpt skip_existing x s :
  let s' := exec (convert skip_existing x) s in
  List.last (stdout s') EmptyString = success_line x ->
  ckpt s' = None
  /\ called_since s s'
     = (if skip_existing then [CallExists (output_filename x)] else [])
       ++ [CallLoadFile x; CallTorchSave (output_filename x); CallGcCollect].
Proof.
  intros s'. subst s'. rewrite last_line_of_convert, exec_convert.
  unfold convert_state.
  destruct (_ && _).
  { intros H. symmetry in H. by apply check_mark_not_skip in H. }
  destruct (load_result _ _) as [e|v].
  { intros H. symmetry in H. by apply check_mark_not_cross in H. }
  destruct (save_result _ _ _) as [[e|] f']; cbn [fst].
  { intros H. symmetry in H. by apply check_mark_not_cross in H. }
  intros _. split; [done|]. by apply called_since_app.
Qed.

(** *** A truncated target *)


(** *** Directories *)

(** A run creates no directory and removes none, and it does not change
    the working directory. *)
Theorem main_keeps_directories base_path skip_existing s k :
  is_dir (fs (exec (main base_path skip_existing) s)) k = is_dir (fs s) k
  /\ cwd (fs (exec (main base_path skip_existing) s)) = cwd (fs s).
Proof.
  destruct (main_evolves base_path skip_existing s) as (Hc & Hd & _).
  by split.
Qed.

(** *** A valid file is converted whatever happens to the others *)



End Runs.

(** * Further properties: discovery *)

Section Discovery.
Context {L : Libraries}.
Implicit Types (f : fsys bytes) (k d : key).

Lemma child_name_spec d k n : child_name d k = Some n <-> k = d ++ [n].
Proof.
  revert k. induction d as [|y d IH]; intros [|z k]; cbn.
  - split; [done | intros [=]].
  - destruct k as [|z0 k].
    + split; intros [= ->]; done.
    + split; [done | intros [=]].
  - split; [done | intros [=]].
  - destruct (String.eqb_spec y z) as [->|Hne].
    + rewrite IH. split; [by intros -> | by intros [= ->]].
    + split; [done | intros [= ]; congruence].
Qed.

Lemma assoc_present (k : key) (l : list (key * node bytes)) :
  k ∈ l.*1 <-> exists n, assoc k l = Some n.
Proof.
  induction l as [|[k0 n0] l IH]; cbn.
  - split; [by intros ?%elem_of_nil | by intros [? ?]].
  - rewrite elem_of_cons, IH. case_decide as E.
    + split; [eauto | by left].
    + split; [intros [?|?]; [congruence | done] | by right].
Qed.

(** The names a directory listing gives. *)
Lemma listdir_spec f p n :
  n ∈ listdir f p
  <-> exists d, resolve f p = Some d /\ is_dir f d = true
        /\ valid_name n = true /\ is_present f (d ++ [n]) = true.
Proof.
  unfold listdir.
  destruct (resolve f p) as [d|];
    [|split; [by intros ?%elem_of_nil | by intros (? & ? & _)]].
  destruct (is_dir f d) eqn:Hd;
    [|split; [by intros ?%elem_of_nil | intros (? & [= <-] & ? & _); congruence]].
  rewrite list_elem_of_filter, omap_child_name, list_elem_of_omap.
  assert (is_present f (d ++ [n]) = true <-> d ++ [n] ∈ (entries f).*1) as Hp.
  { unfold is_present, lookup_key. rewrite assoc_present.
    destruct (d ++ [n]) eqn:E; [by destruct d|].
    destruct (assoc _ _); split; (eauto || done || by intros [? ?]). }
  split.
  - intros [Hv (k & Hk & Hc)]. exists d. apply child_name_spec in Hc as ->.
    split; [done|]. split; [done|]. split; [by apply Is_true_true|].
    by apply Hp.
  - intros (d' & [= <-] & _ & Hv & Hpr). split; [by apply Is_true_true|].
    exists (d ++ [n]). split; [by apply Hp | by apply child_name_spec].
Qed.

Lemma glob1_spec f dir n :
  n ∈ glob1 f dir
  <-> exists d, resolve f dir = Some d /\ is_dir f d = true
        /\ valid_name n = true /\ is_present f (d ++ [n]) = true
        /\ PyStr.startswith "." n = false
        /\ PyStr.endswith ".safetensors" n = true.
Proof.
  unfold glob1. rewrite list_elem_of_filter, listdir_spec.
  rewrite Is_true_true, andb_true_iff, negb_true_iff.
  split.
  - intros [[? ?] (d & ? & ? & ? & ?)]. exists d. done.
  - intros (d & ? & ? & ? & ? & ? & ?). split; [done|]. by exists d.
Qed.

(** What [glob] finds for a base path without wildcard characters:
    exactly the entries of the directory whose names end in
    [.safetensors] and do not start with a dot, each joined to the
    directory part of the pattern; nothing below the directory is
    searched. *)
Theorem glob_finds_the_visible_sources base_path f x :
  has_magic base_path = false ->
  let dirname := (PosixPath.split (base_path +:+ "/*.safetensors")).1 in
  x ∈ glob_files f (base_path +:+ "/*.safetensors")
  <-> exists d n,
        resolve f dirname = Some d /\ is_dir f d = true
        /\ is_present f (d ++ [n]) = true
        /\ valid_name n = true
        /\ PyStr.startswith "." n = false
        /\ PyStr.endswith ".safetensors" n = true
        /\ x = PosixPath.join dirname n.
Proof.
  intros Hm dirname. unfold glob_files. fold dirname.
  subst dirname. rewrite has_magic_pattern_dirname by done.
  cbn [flat_map]. rewrite app_nil_r, list_elem_of_fmap.
  split.
  - intros (n & -> & Hn). apply glob1_spec in Hn as (d & ? & ? & ? & ? & ? & ?).
    by exists d, n.
  - intros (d & n & ? & ? & ? & ? & ? & ? & ->). exists n. split; [done|].
    apply glob1_spec. by exists d.
Qed.

(** A trailing slash on the base path changes neither which files are
    found nor how they are named. *)
Theorem trailing_slash_is_ignored base_path f :
  PyStr.rstrip "/" base_path <> EmptyString ->
  glob_files f ((base_path +:+ "/") +:+ "/*.safetensors")
  = glob_files f (base_path +:+ "/*.safetensors").
Proof.
  intros H. unfold glob_files. rewrite !pattern_dirname.
  change (base_path +:+ "/") with (base_path +:+ String "/" EmptyString).
  rewrite StringFacts.rstrip_app_sep.
  by destruct (PyStr.rstrip "/" base_path).
Qed.


End Discovery.

(** * Wildcards in the base path *)

Section WildcardFacts.
Context {L : Libraries}.
Implicit Types (f : fsys bytes) (k d : key).

Abbreviation isdir_path f p :=
  (match resolve f p with Some k0 => is_dir f k0 | None => false end).

(** Lists that differ only by entries that are not directories: any
    expansion that finds nothing under such entries treats them alike. *)
Abbreviation thins f l' l :=
  (forall (B : Type) (g : string -> list B),
     (forall p, p <> EmptyString -> isdir_path f p = false -> g p = []) ->
     flat_map g l' = flat_map g l).


Lemma flat_map_map {A B C} (g : B -> list C) (j : A -> B) l :
  flat_map g (map j l) = flat_map (fun a => g (j a)) l.
Proof. induction l as [|a l IH]; [done|]. cbn. by rewrite IH. Qed.










(** *** One file more *)

Section Put.
Variables (f : fsys bytes) (k : key) (b : bytes).
Hypothesis Hk : is_dir f k = false.











End Put.



End WildcardFacts.


(** * Concrete runs for the further properties *)

Lemma without_force_nothing_is_overwritten_witness :
  let s := Reference.start Reference.libraries Reference.models in
  lookup_key
    (fs (exec (Cli.script {| Cli.base_path := "/m"; Cli.force := false |}) s))
    ["m"; "c.ckpt"]
  = lookup_key (fs s) ["m"; "c.ckpt"].
Proof.
  intros s.
  apply (without_force_nothing_is_overwritten (L := Reference.libraries)
           {| Cli.base_path := "/m"; Cli.force := false |} s
           ["m"; "c.ckpt"]);
    vm_compute; reflexivity.
Defined.




Lemma success_releases_ckpt_witness :
  let s := Reference.start Reference.libraries Reference.models in
  let s' := exec (convert true "/m/a.safetensors") s in
  ckpt s' = None
  /\ called_since s s'
     = [CallExists "/m/a.ckpt"; CallLoadFile "/m/a.safetensors";
        CallTorchSave "/m/a.ckpt"; CallGcCollect].
Proof.
  intros s s'.
  apply (success_releases_ckpt (L := Reference.libraries) true
           "/m/a.safetensors" s).
  vm_compute. reflexivity.
Defined.



Lemma glob_finds_the_visible_sources_witness :
  "/m/a.safetensors"
  ∈ glob_files (L := Reference.libraries) Reference.models
      "/m/*.safetensors".
Proof.
  apply (glob_finds_the_visible_sources (L := Reference.libraries) "/m"
           Reference.models "/m/a.safetensors"); [vm_compute; reflexivity|].
  exists ["m"], "a.safetensors". repeat split; vm_compute; reflexivity.
Defined.

Lemma trailing_slash_is_ignored_witness :
  glob_files (L := Reference.libraries) Reference.models
    ("/m/" +:+ "/*.safetensors")
  = glob_files (L := Reference.libraries) Reference.models
      ("/m" +:+ "/*.safetensors").
Proof.
  apply (trailing_slash_is_ignored (L := Reference.libraries) "/m"
           Reference.models).
  vm_compute. discriminate.
Defined.


(** * The skip policy over a whole run *)

Section SkipPolicy.
Context {L : Libraries}.
Implicit Types (s : state) (f : fsys bytes) (k : key).

Abbreviation batch sk fl st :=
  (foldl (fun s0 x0 => convert_state sk x0 s0) st fl).





End SkipPolicy.


(** * The script in other environments *)

Section Agreement.
Context {L : Libraries}.

(** On a standard output that takes every line, the script over an
    environment is the script of the main development. *)
Lemma hosted_convert_agrees skip_existing x s :
  lower_run (Hosted.convert (Hosted.standard L) skip_existing x s)
  = convert skip_existing x (lower s).
Proof.
  unfold lower_run, lower, Hosted.convert, convert, mbind, Hosted.M_bind,
    M_bind, mret, Hosted.M_ret, M_ret, Hosted.try_except, try_except,
    Hosted.os_path_exists, os_path_exists, Hosted.print, print,
    Hosted.load_file, load_file, Hosted.torch_save, torch_save,
    Hosted.assign_ckpt, assign_ckpt, Hosted.del_ckpt, del_ckpt,
    Hosted.gc_collect, gc_collect, Hosted.log_call, log_call.
  destruct s as [f out held cs]. destruct skip_existing; cbn.
  - destruct (path_exists _ _); cbn; [done|].
    destruct (load_result _ _) as [e|v]; cbn; [done|].
    by destruct (save_result _ _ _) as [[e|] f'].
  - destruct (load_result _ _) as [e|v]; cbn; [done|].
    by destruct (save_result _ _ _) as [[e|] f'].
Qed.

Lemma hosted_loop_agrees skip_existing files s :
  lower_run (Hosted.for_each (Hosted.standard L) files
               (Hosted.convert (Hosted.standard L) skip_existing) s)
  = for_each files (convert skip_existing) (lower s).
Proof.
  revert s. induction files as [|x files IH]; intros s; [done|].
  cbn [Hosted.for_each for_each]. unfold mbind, Hosted.M_bind, M_bind.
  rewrite <- hosted_convert_agrees.
  destruct (Hosted.convert _ _ _ _) as [[[]|e] s']; cbn; [apply IH | done].
Qed.

Lemma hosted_main_agrees base_path skip_existing s :
  lower_run (Hosted.main (Hosted.standard L) base_path skip_existing s)
  = main base_path skip_existing (lower s).
Proof.
  destruct s as [f out held cs].
  unfold Hosted.main, main, mbind, Hosted.M_bind, M_bind,
    Hosted.os_path_exists, os_path_exists, Hosted.glob, glob.
  cbn. destruct (path_exists _ _); cbn; [|done].
  destruct (glob_files _ _) as [|x files]; [done|].
  match goal with
  | |- context [Hosted.for_each _ ?l _ ?s0] =>
      pose proof (hosted_loop_agrees skip_existing l s0) as H;
      match goal with
      | |- context [for_each l _ ?st] => change st with (lower s0)
      end
  end.
  unfold lower_run in H. rewrite <- H.
  by destruct (Hosted.for_each _ _ _ _) as [[[]|e] s'].
Qed.

End Agreement.

Section Printable.
Context (E : Hosted.Env).

Ltac reduce :=
  cbn -[skip_line loading_line saving_line success_line error_line].

(** Whatever the standard output can encode otherwise, when it can encode
    the skip lines and the error lines no pass of the loop body ends with
    an exception: what [print], [load_file] or [torch.save] raise inside
    the [try] block is caught, and the handler's own [print] succeeds. *)
Lemma pass_returns_when_reports_print skip_existing x s :
  Hosted.env_encodes E (skip_line x) = true ->
  (forall e, Hosted.env_encodes E (error_line x e) = true) ->
  (Hosted.convert E skip_existing x s).1 = Returned tt.
Proof.
  intros Hskip Herr.
  unfold Hosted.convert, mbind, Hosted.M_bind, mret, Hosted.M_ret,
    Hosted.try_except, Hosted.os_path_exists, Hosted.print,
    Hosted.load_file, Hosted.torch_save, Hosted.assign_ckpt,
    Hosted.del_ckpt, Hosted.gc_collect, Hosted.log_call.
  destruct skip_existing; reduce.
  - destruct (Hosted.env_exists E _ _); reduce; [by rewrite Hskip|].
    destruct (Hosted.env_encodes E (loading_line x)); reduce;
      [|by rewrite Herr].
    destruct (Hosted.env_load E _ _) as [e|v]; reduce; [by rewrite Herr|].
    destruct (Hosted.env_encodes E (saving_line x)); reduce;
      [|by rewrite Herr].
    destruct (Hosted.env_save E _ _ _) as [[e|] f']; reduce;
      [by rewrite Herr|].
    destruct (Hosted.env_encodes E (success_line x)); reduce;
      [done | by rewrite Herr].
  - destruct (Hosted.env_encodes E (loading_line x)); reduce;
      [|by rewrite Herr].
    destruct (Hosted.env_load E _ _) as [e|v]; reduce; [by rewrite Herr|].
    destruct (Hosted.env_encodes E (saving_line x)); reduce;
      [|by rewrite Herr].
    destruct (Hosted.env_save E _ _ _) as [[e|] f']; reduce;
      [by rewrite Herr|].
    destruct (Hosted.env_encodes E (success_line x)); reduce;
      [done | by rewrite Herr].
Qed.

Lemma loop_returns_when_reports_print skip_existing files s :
  (forall x, Hosted.env_encodes E (skip_line x) = true) ->
  (forall x e, Hosted.env_encodes E (error_line x e) = true) ->
  (Hosted.for_each E files (Hosted.convert E skip_existing) s).1
  = Returned tt.
Proof.
  intros Hskip Herr. revert s.
  induction files as [|x files IH]; intros s; [done|].
  cbn [Hosted.for_each]. unfold mbind, Hosted.M_bind.
  pose proof (pass_returns_when_reports_print skip_existing x s
                (Hskip x) (Herr x)) as H.
  destruct (Hosted.convert E skip_existing x s) as [[[]|e] s'];
    [apply IH | done].
Qed.

End Printable.

(** * Concrete runs that depart from the specification *)

(** C1. Two source files whose names differ only by an inner extension
    get the same target name, because [str.replace] rewrites every
    occurrence of the extension. Run with skip-existing off, both are
    reported as successfully converted, and the target of the first,
    which held the dictionary [Reference.model], reads back as the
    dictionary of the second, with other values. *)
Theorem colliding_targets_lose_a_conversion :
  let s := Reference.start Reference.libraries Examples.colliding_models in
  let s' := exec (main "/m" false) s in
  glob_files (fs s) "/m/*.safetensors"
  = ["/m/a.safetensors.safetensors"; "/m/a.ckpt.safetensors"]
  /\ load_result (fs s) "/m/a.safetensors.safetensors" = inr Reference.model
  /\ output_filename "/m/a.safetensors.safetensors" = "/m/a.ckpt.ckpt"
  /\ output_filename "/m/a.ckpt.safetensors" = "/m/a.ckpt.ckpt"
  /\ printed_since s s'
     = [found_line 2;
        loading_line "/m/a.safetensors.safetensors";
        saving_line "/m/a.safetensors.safetensors";
        success_line "/m/a.safetensors.safetensors";
        loading_line "/m/a.ckpt.safetensors";
        saving_line "/m/a.ckpt.safetensors";
        success_line "/m/a.ckpt.safetensors";
        complete_line]
  /\ torch_load (fs s') "/m/a.ckpt.ckpt" = Some Examples.other_model
  /\ ~ same_tensors Examples.other_model Reference.model.
Proof.
  intros s s'. repeat split; try (vm_compute; reflexivity).
  intros [_ H].
  destruct (H "weight" Examples.other_weight Reference.weight)
    as (_ & _ & Hdata); [vm_compute; reflexivity..|].
  discriminate.
Qed.

(** C2. On a standard output whose encoding lacks the cross mark, the
    error report of the [except] handler cannot be printed: [print]
    raises inside the handler, nothing catches it, and the run ends with
    that exception. The file after the corrupt one is never tried, though
    it is a good file, and no closing line is printed. *)
Theorem failure_report_ends_the_run :
  let E := Hosted.ascii_stdout Reference.libraries in
  let run := Hosted.main E "/m" true (Hosted.start E Examples.corrupt_first) in
  glob_files (L := Reference.libraries) Examples.corrupt_first
    "/m/*.safetensors"
  = ["/m/b.safetensors"; "/m/c.safetensors"]
  /\ load_result (L := Reference.libraries) Examples.corrupt_first
       "/m/b.safetensors"
     = inl Reference.header_error
  /\ load_result (L := Reference.libraries) Examples.corrupt_first
       "/m/c.safetensors"
     = inr Reference.model
  /\ Hosted.is_ascii (error_line "/m/b.safetensors" Reference.header_error)
     = false
  /\ run.1 = Raised Hosted.UnicodeEncodeError
  /\ Hosted.stdout run.2 = [found_line 2; loading_line "/m/b.safetensors"]
  /\ Hosted.calls run.2
     = [CallExists "/m"; CallGlob "/m/*.safetensors";
        CallExists "/m/b.ckpt"; CallLoadFile "/m/b.safetensors"]
  /\ Hosted.fs run.2 = Examples.corrupt_first.
Proof. intros E run. repeat split; vm_compute; reflexivity. Qed.


(** C10, as stated, fails on a tree with links: the target name [a.ckpt]
    is a symbolic link, or a hard link, to the source file
    [b.safetensors]; with skip-existing off the archive of [a] is
    written through the link, every save being made to a derived target
    name, and the source file [b.safetensors] ends the run with other
    contents. *)
Lemma linked_target_overwrites_source :
  let E := Linked.reference_host in
  let before := Reference.SafetensorsBlob Examples.other_model in
  let after := Reference.CkptBlob Reference.model in
  (let run := Hosted.main E "/m" false (Hosted.start E Linked.symlinked) in
   Linked.read_file Linked.symlinked "/m/b.safetensors" = inr before
   /\ run.1 = Returned tt
   /\ Hosted.calls run.2
      = [CallExists "/m"; CallGlob "/m/*.safetensors";
         CallLoadFile "/m/a.safetensors"; CallTorchSave "/m/a.ckpt";
         CallGcCollect; CallLoadFile "/m/b.safetensors"]
   /\ Linked.read_file (Hosted.fs run.2) "/m/b.safetensors" = inr after)
  /\ (let run := Hosted.main E "/m" false
                   (Hosted.start E Linked.hardlinked) in
      Linked.read_file Linked.hardlinked "/m/b.safetensors" = inr before
      /\ run.1 = Returned tt
      /\ Hosted.calls run.2
         = [CallExists "/m"; CallGlob "/m/*.safetensors";
            CallLoadFile "/m/a.safetensors"; CallTorchSave "/m/a.ckpt";
            CallGcCollect; CallLoadFile "/m/b.safetensors"]
      /\ Linked.read_file (Hosted.fs run.2) "/m/b.safetensors" = inr after).
Proof. intros E before after. repeat split; vm_compute; reflexivity. Qed.
